(** * zipline.utils.run_algo : extension loading and backtest orchestration

    A shallow embedding of [src/zipline/utils/run_algo.py]:
    [load_extensions], [_run] and [run_algorithm].

    Conventions of the embedding.
    - Python exceptions are values of [exn]; a computation that may raise
      returns an [outcome].  [is_Exception] tells the instances of Python's
      [Exception] class, which the [except Exception] clauses of the module
      catch, from [SystemExit], [KeyboardInterrupt] and the like, which
      they let through.
    - Side effects on the outside world are recorded, in program order, in
      the [trace] of the interpreter [state]; the module-level set
      [_loaded_extensions] and IPython's [user_ns] are fields of that state.
    - Collaborators that live outside this module (calendars, bundles, the
      simulation entity, the expression evaluator, extension code) are
      fields of the classes [PyTypes] and [Collaborators].  A collaborator
      is given a failing result exactly where the module handles or raises
      such a failure: the code of an extension and the evaluation of a
      definition may raise any exception; the check of the default
      extension file, the bundle, the simulation and the pickle are taken
      to return, and what is stated of a run is stated of the events it
      records and of the runs that complete. *)

From Stdlib Require Import Ascii String.
From stdpp Require Import gmap strings list.

Local Open Scope string_scope.
Local Open Scope nat_scope.
Local Open Scope list_scope.

(** ** Exceptions and outcomes *)

(** [_RunAlgoError] derives from both [click.ClickException] and
    [ValueError]; it stores the message for Python callers and the message
    for the command line. *)
Inductive exn : Type :=
| ValueError (msg : string)
| _RunAlgoError (pyfunc_msg cmdline_msg : string)
| PyException (cls msg : string)
| PyBaseException (cls msg : string).

(** [_RunAlgoError.__init__]: [cmdline_msg] defaults to [pyfunc_msg]. *)
Definition _RunAlgoError1 (pyfunc_msg : string) : exn :=
  _RunAlgoError pyfunc_msg pyfunc_msg.

(** [str(e)]; [_RunAlgoError.__str__] returns [pyfunc_msg]. *)
Definition exn_str (e : exn) : string :=
  match e with
  | ValueError msg => msg
  | _RunAlgoError pyfunc_msg _ => pyfunc_msg
  | PyException _ msg | PyBaseException _ msg => msg
  end.

(** [isinstance(e, ValueError)] *)
Definition is_ValueError (e : exn) : bool :=
  match e with
  | ValueError _ | _RunAlgoError _ _ => true
  | PyException _ _ | PyBaseException _ _ => false
  end.

(** [isinstance(e, Exception)]: false of [SystemExit], [KeyboardInterrupt]
    and [GeneratorExit], which derive from [BaseException] only. *)
Definition is_Exception (e : exn) : bool :=
  match e with
  | PyBaseException _ _ => false
  | _ => true
  end.

Inductive outcome (A : Type) : Type :=
| Ok (a : A)
| Raise (e : exn).
Arguments Ok {A} a.
Arguments Raise {A} e.

(** ** Strings *)

Definition newline : string := String (Ascii.ascii_of_nat 10) EmptyString.

(** [s.endswith(suffix)] *)
Definition endswith (s suffix : string) : bool :=
  let n := String.length s in
  let m := String.length suffix in
  if (m <=? n)%nat then String.eqb (String.substring (n - m) m s) suffix else false.

(** [s.split(sep, maxsplit)] for a one-character separator: at most
    [maxsplit] splits are made, from the left; the result has at most
    [maxsplit + 1] elements and is never empty. *)
Fixpoint split (s : string) (sep : ascii) (maxsplit : nat) : list string :=
  match s with
  | EmptyString => [EmptyString]
  | String c s' =>
      match maxsplit with
      | O => [s]
      | S k =>
          if Ascii.eqb c sep
          then EmptyString :: split s' sep k
          else match split s' sep maxsplit with
               | hd :: tl => String c hd :: tl
               | [] => [String c EmptyString]
               end
      end
  end.

(** Number of occurrences of a character, [s.count(c)]. *)
Fixpoint count_char (c : ascii) (s : string) : nat :=
  match s with
  | EmptyString => 0
  | String d s' => (if Ascii.eqb d c then 1 else 0) + count_char c s'
  end.

(** ** Types of the collaborators *)

Class PyTypes : Type := {
  Value : Type;            (* Python objects bound in a namespace *)
  World : Type;            (* file system, imported modules, registries *)
  Environ : Type;          (* the [environ] mapping *)
  Session : Type;          (* a timestamp naming a trading session *)
  Calendar : Type;         (* trading_calendars.TradingCalendar *)
  Benchmark : Type;        (* benchmark return series *)
  Timestamp : Type;
  AssetFinder : Type;
  MinuteBarReader : Type;
  DailyBarReader : Type;
  AdjustmentReader : Type;
  DataPortalT : Type;      (* zipline.data.data_portal.DataPortal *)
  Loader : Type;           (* a pipeline loader *)
  Column : Type;           (* a pipeline BoundColumn *)
  MetricsSet : Type;
  BlotterT : Type;
  Callback : Type;         (* initialize, handle_data, ... *)
  Capital : Type;
  Perf : Type;             (* the performance DataFrame *)
}.

Section Data.
Context `{PyTypes}.

(** What [bundles.load] returns. *)
Record BundleData : Type := {
  asset_finder : AssetFinder;
  equity_minute_bar_reader : MinuteBarReader;
  equity_daily_bar_reader : DailyBarReader;
  adjustment_reader : AdjustmentReader;
}.

(** An open file object as [algofile]: [read()] and an optional [name]. *)
Record file : Type := {
  file_name : option string;
  file_read : string;
}.

Record SimulationParameters : Type := {
  start_session : Session;
  end_session : Session;
  sim_trading_calendar : Calendar;
  sim_capital_base : Capital;
  sim_data_frequency : string;
}.

(** The two mutually exclusive keyword sets given to [TradingAlgorithm]. *)
Inductive strategy : Type :=
| Callables (initialize handle_data before_trading_start analyze
             : option Callback)
| Script (algo_filename script : string).

(** The keyword arguments of the [TradingAlgorithm] constructor. *)
Record TradingAlgorithm : Type := {
  ta_namespace : gmap string Value;
  ta_data_portal : DataPortalT;
  ta_get_pipeline_loader : Column → outcome Loader;
  ta_trading_calendar : Calendar;
  ta_sim_params : SimulationParameters;
  ta_metrics_set : MetricsSet;
  ta_blotter : BlotterT;
  ta_benchmark_returns : Benchmark;
  ta_strategy : strategy;
}.

(** Observable effects, in the order the module performs them. *)
Inductive event : Type :=
| EnsureFile (path : string)
| ExecScript (ext : string) (r : option exn)
| ImportModule (ext : string) (r : option exn)
| Warn (msg : string)
| LoadMarketData (environ : Environ)
| Eval (expr : string) (r : outcome Value)
| FileRead (f : file)
| Highlight (text : option string)
| Echo (text : option string)
| BundlesLoad (bundle : string) (ts : option Timestamp)
| NewDataPortal (bd : BundleData)
| NewPricingLoader (bd : BundleData)
| MetricsLoad (name : string)
| BlotterLoad (name : string)
| RunAlgorithm (algo : TradingAlgorithm)
| ToPickle (perf : Perf) (path : string).

Record state : Type := State {
  _loaded_extensions : gset string;
  user_ns : gmap string Value;
  world : World;
  trace : list event;
}.

Definition set_loaded (f : gset string → gset string) (st : state) : state :=
  State (f (_loaded_extensions st)) (user_ns st) (world st) (trace st).
Definition set_user_ns (ns : gmap string Value) (st : state) : state :=
  State (_loaded_extensions st) ns (world st) (trace st).
Definition set_world (w : World) (st : state) : state :=
  State (_loaded_extensions st) (user_ns st) w (trace st).
Definition emit (ev : event) (st : state) : state :=
  State (_loaded_extensions st) (user_ns st) (world st) (trace st ++ [ev]).

(** ** The state-and-exception monad of the interpreter *)

Definition M (A : Type) : Type := state → outcome A * state.

Definition ret {A} (a : A) : M A := λ st, (Ok a, st).
Definition raise {A} (e : exn) : M A := λ st, (Raise e, st).
Definition bind {A B} (m : M A) (k : A → M B) : M B :=
  λ st, match m st with
        | (Ok a, st') => k a st'
        | (Raise e, st') => (Raise e, st')
        end.
Definition gets {A} (f : state → A) : M A := λ st, (Ok (f st), st).
Definition modify (f : state → state) : M unit := λ st, (Ok tt, f st).

End Data.

Notation "'let*' x ':=' m 'in' k" := (bind m (λ x, k))
  (at level 10, x name, m at level 100, k at level 200).
Notation "'let*' ' pat ':=' m 'in' k" :=
  (bind m (λ x, match x with pat => k end))
  (at level 10, pat pattern, m at level 100, k at level 200).

(** [os.name] decides [os.devnull]. *)
Inductive os_name : Type := posix | nt.

Definition os_devnull (os : os_name) : string :=
  match os with
  | posix => "/dev/null"
  | nt => "nul"
  end.

(** ** Operations of the collaborators *)

Class Collaborators `{PyTypes} : Type := {
  os : os_name;
  PYGMENTS : bool;                            (* was pygments importable *)
  py_repr : string → string;                  (* ['%r' % s] for a str *)
  (* [eval(value, namespace)]: may update the namespace it is given *)
  py_eval : string → gmap string Value → gmap string Value * outcome Value;
  default_extension : Environ → string;       (* pth.default_extension *)
  ensure_file : string → World → World;       (* pth.ensure_file *)
  (* [open], [compile] and [six.exec_] in a fresh namespace *)
  exec_script : string → World → World * option exn;
  import_module : string → World → World * option exn;   (* __import__ *)
  date_str : Session → string;                (* ['%s' % ts.date()] *)
  get_calendar : string → Calendar;
  session_distance : Calendar → Session → Session → Z;
  load_market_data : Environ → Benchmark;
  bundles_load : string → Environ → option Timestamp → BundleData;
  first_trading_day : MinuteBarReader → Session;
  DataPortal : AssetFinder → Calendar → Session → MinuteBarReader →
               DailyBarReader → AdjustmentReader → DataPortalT;
  USEquityPricingLoader : DailyBarReader → AdjustmentReader → Loader;
  Column_eq_dec :: EqDecision Column;
  USEquityPricing_columns : list Column;      (* USEquityPricing.columns *)
  column_str : Column → string;               (* ['%s' % column] *)
  (* the registries that extensions fill: name to zero-argument factory *)
  metrics_registry : World → gmap string (unit → MetricsSet);
  blotter_registry : World → gmap string (unit → BlotterT);
  TradingAlgorithm_run : TradingAlgorithm → Perf;   (* [.run()] *)
  perf_str : Perf → string;                   (* [str(perf)] *)
}.

Section Program.
Context `{Collaborators}.

(** ** [load_extensions] (lines 226-274) *)

(** The body of the [try]: a path ending in [.py] is executed as a script,
    anything else is imported as a module. *)
Definition try_load (ext : string) : M (option exn) :=
  λ st,
    if endswith ext ".py"
    then let '(w, r) := exec_script ext (world st) in
         (Ok r, emit (ExecScript ext r) (set_world w st))
    else let '(w, r) := import_module ext (world st) in
         (Ok r, emit (ImportModule ext r) (set_world w st)).

Definition load_warning (ext : string) (e : exn) : string :=
  "Failed to load extension: " +:+ py_repr ext +:+ newline +:+ exn_str e.

(** The [for ext in extensions] loop. *)
Fixpoint load_loop (extensions : list string) (strict reload : bool)
  : M unit :=
  match extensions with
  | [] => ret tt
  | ext :: rest =>
      let* loaded := gets _loaded_extensions in
      if bool_decide (ext ∈ loaded) && negb reload
      then load_loop rest strict reload             (* continue *)
      else
        let* r := try_load ext in
        match r with
        | Some e =>
            if is_Exception e
            then
              if strict then raise e
              else
                let* _ := modify (emit (Warn (load_warning ext e))) in
                load_loop rest strict reload
            else raise e                (* not caught by [except Exception] *)
        | None =>
            let* _ := modify (set_loaded (λ s, {[ext]} ∪ s)) in
            load_loop rest strict reload
        end
  end.

Definition load_extensions (default : bool) (extensions : list string)
    (strict : bool) (environ : Environ) (reload : bool) : M unit :=
  if default
  then
    let default_extension_path := default_extension environ in
    let* _ := modify (λ st, emit (EnsureFile default_extension_path)
                         (set_world
                            (ensure_file default_extension_path (world st))
                            st)) in
    load_loop (default_extension_path :: extensions) strict reload
  else load_loop extensions strict reload.

(** ** The component registries *)

Definition unknown_component_msg (kind name : string) : string :=
  "no " +:+ kind +:+ " registered under name " +:+ py_repr name.

(** Modelled from the spec: the registry lookup behind [metrics.load] and
    [zipline.extensions.load] is not part of this module.  A registry maps a
    string key to a zero-argument factory; looking up a key that is not
    registered fails with a [ValueError] naming the identifier and the
    component kind. *)
Definition registry_load {C : Type} (kind : string)
    (registry : World → gmap string (unit → C)) (name : string) : M C :=
  λ st,
    match registry (world st) !! name with
    | Some factory => (Ok (factory tt), st)
    | None => (Raise (ValueError (unknown_component_msg kind name)), st)
    end.

Definition metrics_load (name : string) : M MetricsSet :=
  let* _ := modify (emit (MetricsLoad name)) in
  registry_load "metrics set" metrics_registry name.

Definition extensions_load_Blotter (name : string) : M BlotterT :=
  let* _ := modify (emit (BlotterLoad name)) in
  registry_load "blotter" blotter_registry name.

(** ** [_run] (lines 56-219) *)

(** The keyword arguments of [_run]. *)
Record RunArgs : Type := {
  handle_data : option Callback;
  initialize : option Callback;
  before_trading_start : option Callback;
  analyze : option Callback;
  algofile : option file;
  algotext : option string;
  defines : list string;
  data_frequency : string;
  capital_base : Capital;
  bundle : string;
  bundle_timestamp : option Timestamp;
  custom_data_portal : option DataPortalT;
  start : Session;
  end_ : Session;
  output : string;
  trading_calendar : option Calendar;
  print_algo : bool;
  metrics_set : string + MetricsSet;
  local_namespace : bool;
  environ : Environ;
  blotter : string + BlotterT;
  benchmark_returns : option Benchmark;
}.

Definition invalid_define (assign : string) : exn :=
  ValueError ("invalid define " +:+ py_repr assign +:+
              ", should be of the form name=value").

Definition failed_definition (name : string) (e : exn) : exn :=
  ValueError ("failed to execute definition for name " +:+ py_repr name +:+
              ": " +:+ exn_str e).

(** [name, value = assign.split('=', 2)] with its [except ValueError]:
    unpacking needs exactly two parts. *)
Definition split_define (assign : string) : outcome (string * string) :=
  match split assign "=" 2 with
  | [name; value] => Ok (name, value)
  | _ => Raise (invalid_define assign)
  end.

(** [namespace[name] = eval(value, namespace)] with its [except Exception]:
    an exception that is no [Exception] is not caught.  When [namespace]
    is IPython's [user_ns] ([shared]), every update is an update of that
    dictionary. *)
Definition eval_define (shared : bool) (name value : string)
    (namespace : gmap string Value) : M (gmap string Value) :=
  let '(namespace', r) := py_eval value namespace in
  let* _ := modify (λ st, emit (Eval value r)
                       (if shared then set_user_ns namespace' st else st)) in
  match r with
  | Ok v =>
      let namespace'' := <[name := v]> namespace' in
      let* _ := modify (λ st, if shared then set_user_ns namespace'' st else st) in
      ret namespace''
  | Raise e =>
      if is_Exception e then raise (failed_definition name e) else raise e
  end.

(** The [for assign in defines] loop (lines 92-107). *)
Fixpoint define_loop (shared : bool) (defines : list string)
    (namespace : gmap string Value) : M (gmap string Value) :=
  match defines with
  | [] => ret namespace
  | assign :: rest =>
      match split_define assign with
      | Raise e => raise e
      | Ok (name, value) =>
          let* namespace' := eval_define shared name value namespace in
          define_loop shared rest namespace'
      end
  end.

Definition conflict_error : exn :=
  _RunAlgoError "cannot pass define without `algotext`"
    "cannot pass '-D' / '--define' without '-t' / '--algotext'".

(** Lines 85-116: the namespace and the source text of the strategy. *)
Definition build_namespace (a : RunArgs)
  : M (gmap string Value * option string) :=
  match algotext a with
  | Some text =>
      let* namespace0 := (if local_namespace a then gets user_ns else ret ∅) in
      let* namespace := define_loop (local_namespace a) (defines a) namespace0 in
      ret (namespace, Some text)
  | None =>
      match defines a with
      | _ :: _ => raise conflict_error
      | [] =>
          match algofile a with
          | Some f =>
              let* _ := modify (emit (FileRead f)) in
              ret (∅, Some (file_read f))
          | None => ret (∅, None)
          end
      end
  end.

(** Lines 82-83. *)
Definition load_benchmark (a : RunArgs) : M Benchmark :=
  match benchmark_returns a with
  | None =>
      let* _ := modify (emit (LoadMarketData (environ a))) in
      ret (load_market_data (environ a))
  | Some b => ret b
  end.

(** Lines 118-127. *)
Definition echo_algo (a : RunArgs) (algotext : option string) : M unit :=
  if print_algo a
  then if PYGMENTS
       then modify (emit (Highlight algotext))
       else modify (emit (Echo algotext))
  else ret tt.

Definition no_trading_days (start end_ : Session) : exn :=
  _RunAlgoError1 ("There are no trading days between " +:+ date_str start +:+
                  " and " +:+ date_str end_).

(** Lines 129-139: the calendar and the date parameter validation. *)
Definition calendar_of (a : RunArgs) : Calendar :=
  match trading_calendar a with
  | None => get_calendar "XNYS"
  | Some c => c
  end.

Definition check_dates (a : RunArgs) : M Calendar :=
  let calendar := calendar_of a in
  if (session_distance calendar (start a) (end_ a) <? 1)%Z
  then raise (no_trading_days (start a) (end_ a))
  else ret calendar.

(** Lines 141-167: the bundle, the data portal and the pricing loader. *)
Definition open_data (a : RunArgs) (calendar : Calendar)
  : M (DataPortalT * Loader) :=
  let* _ := modify (emit (BundlesLoad (bundle a) (bundle_timestamp a))) in
  let bundle_data := bundles_load (bundle a) (environ a) (bundle_timestamp a) in
  let first_trading_day :=
    first_trading_day (equity_minute_bar_reader bundle_data) in
  let* data :=
    match custom_data_portal a with
    | None =>
        let* _ := modify (emit (NewDataPortal bundle_data)) in
        ret (DataPortal (asset_finder bundle_data) calendar first_trading_day
               (equity_minute_bar_reader bundle_data)
               (equity_daily_bar_reader bundle_data)
               (adjustment_reader bundle_data))
    | Some portal => ret portal
    end in
  let* _ := modify (emit (NewPricingLoader bundle_data)) in
  ret (data, USEquityPricingLoader (equity_daily_bar_reader bundle_data)
               (adjustment_reader bundle_data)).

Definition no_loader (column : Column) : exn :=
  ValueError ("No PipelineLoader registered for column " +:+
              column_str column +:+ ".").

(** Lines 169-174. *)
Definition choose_loader (pipeline_loader : Loader) (column : Column)
  : outcome Loader :=
  if bool_decide (column ∈ USEquityPricing_columns)
  then Ok pipeline_loader
  else Raise (no_loader column).

(** [try: ... except ValueError as e: raise _RunAlgoError(str(e))] *)
Definition as_RunAlgoError {A} (m : M A) : M A :=
  λ st,
    match m st with
    | (Raise e, st') =>
        if is_ValueError e
        then (Raise (_RunAlgoError1 (exn_str e)), st')
        else (Raise e, st')
    | r => r
    end.

(** Lines 176-180. *)
Definition resolve_metrics_set (a : RunArgs) : M MetricsSet :=
  match metrics_set a with
  | inl name => as_RunAlgoError (metrics_load name)
  | inr instance => ret instance
  end.

(** Lines 182-186. *)
Definition resolve_blotter (a : RunArgs) : M BlotterT :=
  match blotter a with
  | inl name => as_RunAlgoError (extensions_load_Blotter name)
  | inr instance => ret instance
  end.

(** Lines 203-211: live callables, or the script and its file name. *)
Definition strategy_of (a : RunArgs) (algotext : option string) : strategy :=
  match algotext with
  | None =>
      Callables (initialize a) (handle_data a) (before_trading_start a)
        (analyze a)
  | Some text =>
      Script (match algofile a with
              | Some f => default "<algorithm>" (file_name f)
              | None => "<algorithm>"
              end) text
  end.

(** Lines 214-217. *)
Definition write_output (a : RunArgs) (perf : Perf) : M unit :=
  if String.eqb (output a) "-"
  then modify (emit (Echo (Some (perf_str perf))))
  else if negb (String.eqb (output a) (os_devnull os))
       then modify (emit (ToPickle perf (output a)))
       else ret tt.

(** Lines 188-211: the arguments of the [TradingAlgorithm] constructor. *)
Definition new_algorithm (a : RunArgs) (benchmark_returns : Benchmark)
    (namespace : gmap string Value) (algotext : option string)
    (calendar : Calendar) (data : DataPortalT) (pipeline_loader : Loader)
    (metrics_set : MetricsSet) (blotter : BlotterT) : TradingAlgorithm :=
  {| ta_namespace := namespace;
     ta_data_portal := data;
     ta_get_pipeline_loader := choose_loader pipeline_loader;
     ta_trading_calendar := calendar;
     ta_sim_params :=
       {| start_session := start a;
          end_session := end_ a;
          sim_trading_calendar := calendar;
          sim_capital_base := capital_base a;
          sim_data_frequency := data_frequency a |};
     ta_metrics_set := metrics_set;
     ta_blotter := blotter;
     ta_benchmark_returns := benchmark_returns;
     ta_strategy := strategy_of a algotext |}.

Definition _run (a : RunArgs) : M Perf :=
  let* benchmark_returns := load_benchmark a in
  let* '(namespace, algotext) := build_namespace a in
  let* _ := echo_algo a algotext in
  let* calendar := check_dates a in
  let* '(data, pipeline_loader) := open_data a calendar in
  let* metrics_set := resolve_metrics_set a in
  let* blotter := resolve_blotter a in
  let algo := new_algorithm a benchmark_returns namespace algotext calendar
                data pipeline_loader metrics_set blotter in
  let* _ := modify (emit (RunAlgorithm algo)) in
  let perf := TradingAlgorithm_run algo in
  let* _ := write_output a perf in
  ret perf.

(** ** [run_algorithm] (lines 277-391) *)

(** The arguments of [run_algorithm]; the defaults of the optional ones are
    [None], ['daily'], ['quantopian-quandl'], ['default'], [True], [()],
    [True] and [os.environ]. *)
Record AlgorithmArgs : Type := {
  ra_start : Session;
  ra_end : Session;
  ra_initialize : option Callback;
  ra_capital_base : Capital;
  ra_handle_data : option Callback;
  ra_before_trading_start : option Callback;
  ra_analyze : option Callback;
  ra_data_frequency : string;
  ra_bundle : string;
  ra_bundle_timestamp : option Timestamp;
  ra_data_portal : option DataPortalT;
  ra_trading_calendar : option Calendar;
  ra_metrics_set : string + MetricsSet;
  ra_benchmark_returns : option Benchmark;
  ra_default_extension : bool;
  ra_extensions : list string;
  ra_strict_extensions : bool;
  ra_environ : Environ;
  ra_blotter : string + BlotterT;
}.

Definition run_args_of (r : AlgorithmArgs) : RunArgs :=
  {| handle_data := ra_handle_data r;
     initialize := ra_initialize r;
     before_trading_start := ra_before_trading_start r;
     analyze := ra_analyze r;
     algofile := None;
     algotext := None;
     defines := [];
     data_frequency := ra_data_frequency r;
     capital_base := ra_capital_base r;
     bundle := ra_bundle r;
     bundle_timestamp := ra_bundle_timestamp r;
     custom_data_portal := ra_data_portal r;
     start := ra_start r;
     end_ := ra_end r;
     output := os_devnull os;
     trading_calendar := ra_trading_calendar r;
     print_algo := false;
     metrics_set := ra_metrics_set r;
     local_namespace := false;
     environ := ra_environ r;
     blotter := ra_blotter r;
     benchmark_returns := ra_benchmark_returns r |}.

Definition run_algorithm (r : AlgorithmArgs) : M Perf :=
  let* _ := load_extensions (ra_default_extension r) (ra_extensions r)
              (ra_strict_extensions r) (ra_environ r) false in
  _run (run_args_of r).

End Program.

(** ** Observations on traces, and the properties under study *)

Section Observers.
Context `{Collaborators}.

(** The events recorded between two states of one execution. *)
Definition events_since (st st' : state) : list event :=
  drop (length (trace st)) (trace st').

(** The event [try_load] records for [ext]. *)
Definition load_event (ext : string) (r : option exn) : event :=
  if endswith ext ".py" then ExecScript ext r else ImportModule ext r.

Definition load_result (ev : event) : option (string * option exn) :=
  match ev with
  | ExecScript ext r | ImportModule ext r => Some (ext, r)
  | _ => None
  end.

Definition attempt_of (ext : string) (ev : event) : bool :=
  match load_result ev with
  | Some (x, _) => String.eqb x ext
  | None => false
  end.

Definition success_of (ext : string) (ev : event) : bool :=
  match load_result ev with
  | Some (x, None) => String.eqb x ext
  | _ => false
  end.


Fixpoint count (p : event → bool) (tr : list event) : nat :=
  match tr with
  | [] => 0
  | ev :: tr' => (if p ev then 1 else 0) + count p tr'
  end.

(** How often [ext] was executed or imported, with and without success. *)
Definition attempts (ext : string) := count (attempt_of ext).
Definition successes (ext : string) := count (success_of ext).

Definition prints (ev : event) : bool :=
  match ev with
  | Highlight _ | Echo _ => true
  | _ => false
  end.

Definition persists (ev : event) : bool :=
  match ev with
  | ToPickle _ _ => true
  | _ => false
  end.

Definition is_eval (ev : event) : bool :=
  match ev with
  | Eval _ _ => true
  | _ => false
  end.

(** Reading market data. *)
Definition reads_market_data (ev : event) : bool :=
  match ev with
  | LoadMarketData _ => true
  | _ => false
  end.

(** Opening the bundle and building what depends on it. *)
Definition opens_bundle (ev : event) : bool :=
  match ev with
  | BundlesLoad _ _ | NewDataPortal _ | NewPricingLoader _ => true
  | _ => false
  end.

Definition opens_data (ev : event) : bool :=
  reads_market_data ev || opens_bundle ev.

Definition runs_simulation (ev : event) : bool :=
  match ev with
  | RunAlgorithm _ => true
  | _ => false
  end.

(** What the specification asks of a metrics-set or blotter argument: an
    instance is taken as it is, a string is looked up in the registry of
    its kind, and an unregistered string is an error naming the string and
    the kind. *)
Definition resolved {C : Type} (kind : string)
    (registry : gmap string (unit → C)) (arg : string + C) : outcome C :=
  match arg with
  | inr instance => Ok instance
  | inl name =>
      match registry !! name with
      | Some factory => Ok (factory tt)
      | None => Raise (_RunAlgoError1 (unknown_component_msg kind name))
      end
  end.

(** What loading [ext] does to the world, and whether it raises. *)
Definition load_outcome (ext : string) (w : World) : World * option exn :=
  if endswith ext ".py" then exec_script ext w else import_module ext w.

(** Is [ext] loaded at this turn of the loop, or skipped? *)
Definition is_skipped (reload : bool) (ext : string) (st : state) : Prop :=
  ext ∈ _loaded_extensions st ∧ reload = false.

(** The state after [ext] was tried with result [r]. *)
Definition tried (ext : string) (w : World) (r : option exn) (st : state)
  : state :=
  emit (load_event ext r) (set_world w st).

(** The runs of the loop of [load_extensions], one rule for each path
    through its body: [loads strict reload exts st r st' new] when the loop
    over [exts] started in [st] ends in [st'] with result [r], having
    recorded the events [new]. *)
Inductive loads (strict reload : bool)
  : list string → state → outcome unit → state → list event → Prop :=
| loads_nil st :
    loads strict reload [] st (Ok tt) st []
| loads_skip ext rest st r st' new :
    is_skipped reload ext st →
    loads strict reload rest st r st' new →
    loads strict reload (ext :: rest) st r st' new
| loads_raise ext rest st w e :
    ¬ is_skipped reload ext st →
    strict = true ∨ is_Exception e = false →
    load_outcome ext (world st) = (w, Some e) →
    loads strict reload (ext :: rest) st (Raise e) (tried ext w (Some e) st)
      [load_event ext (Some e)]
| loads_warn ext rest st w e r st' new :
    ¬ is_skipped reload ext st →
    strict = false → is_Exception e = true →
    load_outcome ext (world st) = (w, Some e) →
    loads strict reload rest
      (emit (Warn (load_warning ext e)) (tried ext w (Some e) st)) r st' new →
    loads strict reload (ext :: rest) st r st'
      (load_event ext (Some e) :: Warn (load_warning ext e) :: new)
| loads_add ext rest st w r st' new :
    ¬ is_skipped reload ext st →
    load_outcome ext (world st) = (w, None) →
    loads strict reload rest
      (set_loaded (λ s, {[ext]} ∪ s) (tried ext w None st)) r st' new →
    loads strict reload (ext :: rest) st r st' (load_event ext None :: new).

(** The identifiers [load_extensions] goes through. *)
Definition extension_list (default : bool) (environ : Environ)
    (extensions : list string) : list string :=
  if default then default_extension environ :: extensions else extensions.

(** [st'] continues the trace of [st] with events that all satisfy [P]. *)
Definition extends (P : event → Prop) (st st' : state) : Prop :=
  ∃ new, trace st' = trace st ++ new ∧ Forall P new.

(** The paths through [_run], one rule for each way it ends: in the
    definitions, at the date validation, at the lookup of the metrics set
    or of the blotter, or after the simulation. *)
Inductive run_path (a : RunArgs) (st : state)
  : outcome Perf → state → Prop :=
| path_definitions b s1 e s2 :
    load_benchmark a st = (Ok b, s1) →
    build_namespace a s1 = (Raise e, s2) →
    run_path a st (Raise e) s2
| path_dates b s1 ns text s2 s3 :
    load_benchmark a st = (Ok b, s1) →
    build_namespace a s1 = (Ok (ns, text), s2) →
    echo_algo a text s2 = (Ok tt, s3) →
    (session_distance (calendar_of a) (start a) (end_ a) < 1)%Z →
    run_path a st (Raise (no_trading_days (start a) (end_ a))) s3
| path_metrics b s1 ns text s2 s3 data loader s4 e s5 :
    load_benchmark a st = (Ok b, s1) →
    build_namespace a s1 = (Ok (ns, text), s2) →
    echo_algo a text s2 = (Ok tt, s3) →
    (1 ≤ session_distance (calendar_of a) (start a) (end_ a))%Z →
    open_data a (calendar_of a) s3 = (Ok (data, loader), s4) →
    resolve_metrics_set a s4 = (Raise e, s5) →
    run_path a st (Raise e) s5
| path_blotter b s1 ns text s2 s3 data loader s4 m s5 e s6 :
    load_benchmark a st = (Ok b, s1) →
    build_namespace a s1 = (Ok (ns, text), s2) →
    echo_algo a text s2 = (Ok tt, s3) →
    (1 ≤ session_distance (calendar_of a) (start a) (end_ a))%Z →
    open_data a (calendar_of a) s3 = (Ok (data, loader), s4) →
    resolve_metrics_set a s4 = (Ok m, s5) →
    resolve_blotter a s5 = (Raise e, s6) →
    run_path a st (Raise e) s6
| path_completes b s1 ns text s2 s3 data loader s4 m s5 bl s6 algo s7 :
    load_benchmark a st = (Ok b, s1) →
    build_namespace a s1 = (Ok (ns, text), s2) →
    echo_algo a text s2 = (Ok tt, s3) →
    (1 ≤ session_distance (calendar_of a) (start a) (end_ a))%Z →
    open_data a (calendar_of a) s3 = (Ok (data, loader), s4) →
    resolve_metrics_set a s4 = (Ok m, s5) →
    resolve_blotter a s5 = (Ok bl, s6) →
    algo = new_algorithm a b ns text (calendar_of a) data loader m bl →
    write_output a (TradingAlgorithm_run algo) (emit (RunAlgorithm algo) s6)
      = (Ok tt, s7) →
    run_path a st (Ok (TradingAlgorithm_run algo)) s7.

(** The events [_run] can record before the date validation, and before
    the simulation. *)
Definition before_validation (a : RunArgs) (ev : event) : Prop :=
  ev = LoadMarketData (environ a) ∨ is_eval ev = true ∨
  (∃ f, ev = FileRead f) ∨ (prints ev = true ∧ print_algo a = true).

Definition before_simulation (a : RunArgs) (ev : event) : Prop :=
  before_validation a ev ∨ opens_bundle ev = true ∨
  (∃ name, ev = MetricsLoad name) ∨ (∃ name, ev = BlotterLoad name).



(** The date validation as the specification words it: an empty range
    fails the run with the error naming the two dates, before market data
    is read or the bundle opened. *)
Definition validates_before_any_data (a : RunArgs) (st : state) : Prop :=
  (session_distance (calendar_of a) (start a) (end_ a) < 1)%Z →
  (_run a st).1 = Raise (no_trading_days (start a) (end_ a)) ∧
  Forall (λ ev, opens_data ev = false) (events_since st (_run a st).2).

(** The split of a definition as the specification words it: the string
    is cut at its first [=] and is rejected only when it has none. *)
Definition splits_on_first_equals (assign : string) : Prop :=
  (count_char "=" assign = 0 → split_define assign = Raise (invalid_define assign)) ∧
  (∀ name value, assign = name +:+ "=" +:+ value → count_char "=" name = 0 →
                 split_define assign = Ok (name, value)).

(** The failure of a definition as the specification words it: whenever
    the evaluation of the expression raises, the builder fails with the
    error that carries the name and the cause. *)
Definition failure_is_wrapped (shared : bool) (name value : string)
    (ns : gmap string Value) (st : state) : Prop :=
  ∀ ns' e, py_eval value ns = (ns', Raise e) →
    (define_loop shared [name +:+ "=" +:+ value] ns st).1
      = Raise (failed_definition name e).


End Observers.

(** ** A test double for the collaborators

    Every day is a session, extensions whose name starts with [bad] raise,
    those whose name starts with [flaky] raise unless they are the first
    to run, those whose name starts with [quit] exit the interpreter, the
    world counts the extensions executed, expressions are decimal
    literals or names, and the simulation reports the number of sessions. *)
Module TestDouble.

Fixpoint parse_digits (acc : Z) (s : string) : option Z :=
  match s with
  | EmptyString => Some acc
  | String c s' =>
      let n := Ascii.nat_of_ascii c in
      if ((48 <=? n) && (n <=? 57))%nat
      then parse_digits (10 * acc + Z.of_nat (n - 48)) s'
      else None
  end.

Definition eval_literal_or_name (expr : string) (ns : gmap string Z)
  : gmap string Z * outcome Z :=
  match ns !! expr with
  | Some v => (ns, Ok v)
  | None =>
      match expr with
      | EmptyString => (ns, Raise (PyException "SyntaxError" "invalid syntax"))
      | "exit(3)" => (ns, Raise (PyBaseException "SystemExit" "3"))
      | _ =>
          match parse_digits 0 expr with
          | Some v => (ns, Ok v)
          | None =>
              (ns, Raise (PyException "NameError"
                            ("name '" +:+ expr +:+ "' is not defined")))
          end
      end
  end.

Definition boom : exn := PyException "RuntimeError" "boom".

Definition system_exit : exn := PyBaseException "SystemExit" "3".

Definition run_counting (ext : string) (w : nat) : nat * option exn :=
  (S w, if String.prefix "quit" ext
        then Some system_exit
        else if String.prefix "bad" ext
                || String.prefix "flaky" ext && (0 <? w)
        then Some boom
        else None).

#[export] Instance types : PyTypes := {|
  Value := Z;
  World := nat;
  Environ := unit;
  Session := Z;
  Calendar := unit;
  Benchmark := unit;
  Timestamp := unit;
  AssetFinder := unit;
  MinuteBarReader := unit;
  DailyBarReader := unit;
  AdjustmentReader := unit;
  DataPortalT := unit;
  Loader := unit;
  Column := string;
  MetricsSet := list string;
  BlotterT := string;
  Callback := unit;
  Capital := Z;
  Perf := Z;
|}.

#[export] Instance collaborators : Collaborators := {|
  os := posix;
  PYGMENTS := false;
  py_repr := λ s, "'" +:+ s +:+ "'";
  py_eval := eval_literal_or_name;
  default_extension := λ _, "extension.py";
  ensure_file := λ _ w, w;
  exec_script := run_counting;
  import_module := run_counting;
  date_str := λ d : Z, if (d <? 0)%Z then "before epoch" else "after epoch";
  get_calendar := λ _, tt;
  session_distance := λ _ (s e : Z), (e - s + 1)%Z;
  load_market_data := λ _, tt;
  bundles_load := λ _ _ _, Build_BundleData tt tt tt tt;
  first_trading_day := λ _, 0%Z;
  DataPortal := λ _ _ _ _ _ _, tt;
  USEquityPricingLoader := λ _ _, tt;
  Column_eq_dec := String.string_dec;
  USEquityPricing_columns := ["open"; "high"; "low"; "close"; "volume"];
  column_str := λ c : string, c;
  metrics_registry := λ _, {[ "none" := λ _, [] ]};
  blotter_registry := λ _, {[ "default" := λ _, "SimulationBlotter" ]};
  TradingAlgorithm_run :=
    λ algo, ((end_session (ta_sim_params algo) : Z) -
             (start_session (ta_sim_params algo) : Z) + 1)%Z;
  perf_str := λ _, "perf";
|}.

Definition st0 : state := State ∅ ∅ 0%nat [].

(** The state after a first call has loaded [flaky.py]. *)
Definition st_loaded : state :=
  (load_extensions false ["flaky.py"] false tt false st0).2.

(** A run over the sessions [first] to [last] with the given defines. *)
Definition run_args (algotext : option string) (defines : list string)
    (first last : Z) (output : string) (benchmark : option unit)
    (metrics_set : string + list string) (blotter : string + string)
  : RunArgs :=
  {| handle_data := None; initialize := None;
     before_trading_start := None; analyze := None;
     algofile := None; algotext := algotext; defines := defines;
     data_frequency := "daily"; capital_base := 100000%Z;
     bundle := "quantopian-quandl"; bundle_timestamp := None;
     custom_data_portal := None; start := first; end_ := last;
     output := output; trading_calendar := None; print_algo := false;
     metrics_set := metrics_set; local_namespace := false; environ := tt;
     blotter := blotter; benchmark_returns := benchmark |}.

Definition algorithm_args (first last : Z) (extensions : list string)
  : AlgorithmArgs :=
  {| ra_start := first; ra_end := last; ra_initialize := Some tt;
     ra_capital_base := 100000%Z; ra_handle_data := None;
     ra_before_trading_start := None; ra_analyze := None;
     ra_data_frequency := "daily"; ra_bundle := "quantopian-quandl";
     ra_bundle_timestamp := None; ra_data_portal := None;
     ra_trading_calendar := None; ra_metrics_set := inl "none";
     ra_benchmark_returns := None; ra_default_extension := true;
     ra_extensions := extensions; ra_strict_extensions := true;
     ra_environ := tt; ra_blotter := inl "default" |}.

End TestDouble.

(** ** Further observations *)

Section Behaviour.
Context `{Collaborators}.

(** The identifiers executed or imported, in the order of their events. *)
Definition attempted (tr : list event) : list string :=
  omap (λ ev, fst <$> load_result ev) tr.

Definition is_failed_load (ev : event) : bool :=
  match load_result ev with
  | Some (_, Some _) => true
  | _ => false
  end.

(** A failed load whose exception [except Exception] catches. *)
Definition is_caught_failure (ev : event) : bool :=
  match load_result ev with
  | Some (_, Some e) => is_Exception e
  | _ => false
  end.

Definition is_warning (ev : event) : bool :=
  match ev with
  | Warn _ => true
  | _ => false
  end.

(** The state in which the loop of [load_extensions] starts: with
    [default], the file of the default extension has been made sure of. *)
Definition ensured (default : bool) (environ : Environ) (st : state) : state :=
  if default
  then emit (EnsureFile (default_extension environ))
         (set_world (ensure_file (default_extension environ) (world st)) st)
  else st.

(** [s] is [p] followed by [suffix], for some [p]. *)
Definition has_suffix (suffix s : string) : Prop :=
  ∃ p, s = p +:+ suffix.

(** What a run of [_run] builds from its arguments. *)
Definition benchmark_of (a : RunArgs) : Benchmark :=
  match benchmark_returns a with
  | Some b => b
  | None => load_market_data (environ a)
  end.

Definition bundle_data_of (a : RunArgs) : BundleData :=
  bundles_load (bundle a) (environ a) (bundle_timestamp a).

Definition data_portal_of (a : RunArgs) : DataPortalT :=
  match custom_data_portal a with
  | Some portal => portal
  | None =>
      let bd := bundle_data_of a in
      DataPortal (asset_finder bd) (calendar_of a)
        (first_trading_day (equity_minute_bar_reader bd))
        (equity_minute_bar_reader bd) (equity_daily_bar_reader bd)
        (adjustment_reader bd)
  end.

Definition pricing_loader_of (a : RunArgs) : Loader :=
  let bd := bundle_data_of a in
  USEquityPricingLoader (equity_daily_bar_reader bd) (adjustment_reader bd).

(** The events a run of [_run] on the arguments [a] can record, each
    with the condition on [a] under which the code records it. *)
Inductive run_event (a : RunArgs) : event → Prop :=
| re_market_data :
    benchmark_returns a = None →
    run_event a (LoadMarketData (environ a))
| re_eval assign name value r :
    algotext a ≠ None →
    assign ∈ defines a →
    split_define assign = Ok (name, value) →
    run_event a (Eval value r)
| re_file_read f :
    algotext a = None → defines a = [] → algofile a = Some f →
    run_event a (FileRead f)
| re_highlight text :
    print_algo a = true → PYGMENTS = true →
    run_event a (Highlight text)
| re_echo_source text :
    print_algo a = true → PYGMENTS = false →
    run_event a (Echo text)
| re_bundle :
    run_event a (BundlesLoad (bundle a) (bundle_timestamp a))
| re_data_portal :
    custom_data_portal a = None →
    run_event a (NewDataPortal (bundle_data_of a))
| re_pricing_loader :
    run_event a (NewPricingLoader (bundle_data_of a))
| re_metrics name :
    metrics_set a = inl name →
    run_event a (MetricsLoad name)
| re_blotter name :
    blotter a = inl name →
    run_event a (BlotterLoad name)
| re_simulation algo :
    run_event a (RunAlgorithm algo)
| re_echo_result perf :
    output a = "-" →
    run_event a (Echo (Some (perf_str perf)))
| re_pickle perf :
    output a ≠ "-" → output a ≠ os_devnull os →
    run_event a (ToPickle perf (output a)).

(** A step of [_run] from [st] to [st']: it records events of
    [run_event] and keeps the loaded set and the world; a quiet step also
    keeps the namespace of the interactive session. *)
Definition run_step (a : RunArgs) (st st' : state) : Prop :=
  extends (run_event a) st st' ∧
  _loaded_extensions st' = _loaded_extensions st ∧
  world st' = world st.

Definition quiet_step (a : RunArgs) (st st' : state) : Prop :=
  run_step a st st' ∧ user_ns st' = user_ns st.

End Behaviour.

(** Further inputs for the test double. *)
Module TestInputs.
Import TestDouble.

(** A run on source text in the namespace of an interactive session. *)
Definition interactive_args (defines : list string) : RunArgs :=
  {| handle_data := None; initialize := None;
     before_trading_start := None; analyze := None;
     algofile := None; algotext := Some "pass"; defines := defines;
     data_frequency := "daily"; capital_base := 100000%Z;
     bundle := "quantopian-quandl"; bundle_timestamp := None;
     custom_data_portal := Some tt; start := 1%Z; end_ := 5%Z;
     output := "perf.pickle"; trading_calendar := Some tt;
     print_algo := true; metrics_set := inr ["returns"];
     local_namespace := true; environ := tt;
     blotter := inr "blotter"; benchmark_returns := Some tt |}.

End TestInputs.

(** * Properties *)

(** ** [str.split] *)

Section SplitFacts.
Variable sep : ascii.

Lemma count_char_app (s1 s2 : string) :
  count_char sep (s1 +:+ s2) = count_char sep s1 + count_char sep s2.
Proof.
  induction s1 as [|c s1 IH]; simpl; [reflexivity|].
  rewrite IH. lia.
Qed.

Lemma split_nonempty (s : string) (n : nat) : split s sep n ≠ [].
Proof.
  destruct s as [|c s]; simpl; [discriminate|].
  destruct n as [|k]; [discriminate|].
  destruct (Ascii.eqb c sep); [discriminate|].
  destruct (split s sep (S k)); discriminate.
Qed.

(** Without the separator there is nothing to split. *)
Lemma split_no_sep (s : string) (n : nat) :
  count_char sep s = 0 → split s sep n = [s].
Proof.
  induction s as [|c s IH]; simpl; intros Hc; [reflexivity|].
  destruct n as [|k]; [reflexivity|].
  destruct (Ascii.eqb c sep); [discriminate|].
  rewrite IH by exact Hc. reflexivity.
Qed.

(** The first split is made at the first separator. *)
Lemma split_first (name rest : string) (n : nat) :
  count_char sep name = 0 →
  split (name +:+ String sep rest) sep (S n) = name :: split rest sep n.
Proof.
  induction name as [|c name IH]; simpl; intros Hc.
  - rewrite Ascii.eqb_refl. reflexivity.
  - destruct (Ascii.eqb c sep); [discriminate|].
    rewrite IH by exact Hc. reflexivity.
Qed.

(** [split] yields one part more than the splits it makes. *)
Lemma length_split (s : string) (n : nat) :
  length (split s sep n) = S (Nat.min (count_char sep s) n).
Proof.
  revert n. induction s as [|c s IH]; intros n; simpl; [reflexivity|].
  destruct n as [|k]; simpl.
  - rewrite Nat.min_0_r. reflexivity.
  - destruct (Ascii.eqb c sep); simpl.
    + rewrite IH. reflexivity.
    + specialize (IH (S k)).
      destruct (split s sep (S k)); simpl in *; [discriminate | exact IH].
Qed.

(** A string with a separator starts with a separator-free part. *)
Lemma first_sep (s : string) :
  1 ≤ count_char sep s →
  ∃ name rest, s = name +:+ String sep rest ∧ count_char sep name = 0.
Proof.
  induction s as [|c s IH]; simpl; intros Hc; [lia|].
  destruct (Ascii.eqb c sep) eqn:E.
  - apply Ascii.eqb_eq in E. subst c. exists EmptyString, s. split; reflexivity.
  - destruct (IH Hc) as (name & rest & -> & Hn).
    exists (String c name), rest. simpl. rewrite E. split; [reflexivity|exact Hn].
Qed.

End SplitFacts.

Section DefineSyntax.
Context `{Collaborators}.

Lemma split_define_no_equals (assign : string) :
  count_char "=" assign = 0 → split_define assign = Raise (invalid_define assign).
Proof.
  intros Hc. unfold split_define. rewrite split_no_sep by exact Hc. reflexivity.
Qed.

Lemma split_define_one_equals (name value : string) :
  count_char "=" name = 0 → count_char "=" value = 0 →
  split_define (name +:+ "=" +:+ value) = Ok (name, value).
Proof.
  intros Hn Hv. unfold split_define.
  change ("=" +:+ value) with (String "=" value).
  rewrite split_first by exact Hn.
  rewrite split_no_sep by exact Hv. reflexivity.
Qed.

Lemma split_define_more_equals (assign : string) :
  2 ≤ count_char "=" assign → split_define assign = Raise (invalid_define assign).
Proof.
  intros Hc. unfold split_define.
  pose proof (length_split "=" assign 2) as Hl.
  rewrite Nat.min_r in Hl by exact Hc.
  destruct (split assign "=" 2) as [|a [|b [|c l]]]; simpl in Hl;
    try discriminate; reflexivity.
Qed.

(** What the code accepts: exactly the strings with a single [=]. *)
Lemma split_define_accepts (assign : string) :
  (∃ p, split_define assign = Ok p) ↔ count_char "=" assign = 1.
Proof.
  split.
  - intros [p Hp].
    destruct (count_char "=" assign) as [|[|k]] eqn:E; [| reflexivity |].
    + rewrite split_define_no_equals in Hp by exact E. discriminate.
    + rewrite split_define_more_equals in Hp by lia. discriminate.
  - intros Hc.
    destruct (first_sep "=" assign) as (name & value & -> & Hn); [lia|].
    rewrite count_char_app in Hc. simpl in Hc.
    exists (name, value). apply split_define_one_equals; [exact Hn | lia].
Qed.

(** C4, at the input [x=1==1].  The specification cuts a definition at its
    first [=] and rejects only a string without [=]; the code asks
    [split] for up to two cuts and unpacks two parts, so the expression
    [1==1] makes three parts and the definition is rejected. *)
Theorem define_with_equals_in_value_rejected :
  split "x=1==1" "=" 2 = ["x"; "1"; "=1"] ∧
  split_define "x=1==1" = Raise (invalid_define "x=1==1") ∧
  ¬ splits_on_first_equals "x=1==1".
Proof.
  split; [reflexivity|]. split; [reflexivity|].
  intros [_ Hsplit].
  specialize (Hsplit "x" "1==1" eq_refl eq_refl). discriminate.
Qed.

End DefineSyntax.

(** ** Traces *)

Section TraceFacts.
Context `{Collaborators}.

Lemma count_app (p : event → bool) (l1 l2 : list event) :
  count p (l1 ++ l2) = count p l1 + count p l2.
Proof.
  induction l1 as [|ev l1 IH]; simpl; [reflexivity|]. rewrite IH. lia.
Qed.

Lemma successes_le_attempts (ext : string) (tr : list event) :
  successes ext tr ≤ attempts ext tr.
Proof.
  unfold successes, attempts.
  induction tr as [|ev tr IH]; simpl; [lia|].
  unfold success_of, attempt_of in *.
  destruct (load_result ev) as [[x [e|]]|]; simpl; try lia.
Qed.


Lemma load_result_load_event (ext : string) (r : option exn) :
  load_result (load_event ext r) = Some (ext, r).
Proof. unfold load_event. destruct (endswith ext ".py"); reflexivity. Qed.

Lemma load_result_Warn (msg : string) : load_result (Warn msg) = None.
Proof. reflexivity. Qed.

Lemma successes_cons_load (x ext : string) (r : option exn) (tr : list event) :
  successes x (load_event ext r :: tr) =
  match r with
  | Some _ => 0
  | None => if String.eqb ext x then 1 else 0
  end + successes x tr.
Proof.
  unfold successes. cbn. unfold success_of at 1.
  rewrite load_result_load_event. destruct r; reflexivity.
Qed.

Lemma successes_cons_Warn (x msg : string) (tr : list event) :
  successes x (Warn msg :: tr) = successes x tr.
Proof. reflexivity. Qed.

Lemma events_since_app (st st' : state) (new : list event) :
  trace st' = trace st ++ new → events_since st st' = new.
Proof. intros Ht. unfold events_since. rewrite Ht. apply drop_app_length. Qed.

Lemma extends_refl (P : event → Prop) (st : state) : extends P st st.
Proof. exists []. split; [symmetry; apply app_nil_r | constructor]. Qed.

Lemma extends_trans (P : event → Prop) (st1 st2 st3 : state) :
  extends P st1 st2 → extends P st2 st3 → extends P st1 st3.
Proof.
  intros (n1 & H1 & F1) (n2 & H2 & F2). exists (n1 ++ n2). split.
  - rewrite H2, H1. symmetry. apply app_assoc.
  - apply Forall_app. split; assumption.
Qed.

Lemma extends_impl (P Q : event → Prop) (st st' : state) :
  (∀ ev, P ev → Q ev) → extends P st st' → extends Q st st'.
Proof.
  intros HPQ (new & Ht & F). exists new. split; [exact Ht|].
  eapply Forall_impl; eassumption.
Qed.

Lemma extends_emit (P : event → Prop) (ev : event) (st : state) :
  P ev → extends P st (emit ev st).
Proof. intros HP. exists [ev]. split; [reflexivity | repeat constructor; exact HP]. Qed.

Lemma extends_events_since (P : event → Prop) (st st' : state) :
  extends P st st' → Forall P (events_since st st').
Proof. intros (new & Ht & F). rewrite (events_since_app _ _ _ Ht). exact F. Qed.

End TraceFacts.

(** ** The loop of [load_extensions] *)

Section ExtensionLoop.
Context `{Collaborators}.
Variables strict reload : bool.

Lemma try_load_tried (ext : string) (st : state) (w : World) (r : option exn) :
  load_outcome ext (world st) = (w, r) →
  try_load ext st = (Ok r, tried ext w r st).
Proof.
  unfold try_load, tried, load_event, load_outcome.
  destruct (endswith ext ".py"); intros ->; reflexivity.
Qed.

Lemma not_skipped_test (ext : string) (st : state) :
  ¬ is_skipped reload ext st →
  bool_decide (ext ∈ _loaded_extensions st) && negb reload = false.
Proof.
  intros Hns. apply andb_false_iff.
  destruct reload; [right; reflexivity|].
  left. apply bool_decide_eq_false. intros Hin. apply Hns. split; auto.
Qed.

Lemma load_loop_skip (ext : string) (rest : list string) (st : state) :
  is_skipped reload ext st →
  load_loop (ext :: rest) strict reload st = load_loop rest strict reload st.
Proof.
  intros [Hin Hr]. cbn [load_loop]. unfold bind, gets.
  rewrite bool_decide_eq_true_2 by exact Hin. rewrite Hr. reflexivity.
Qed.

Lemma load_loop_try (ext : string) (rest : list string) (st : state)
    (w : World) (r : option exn) :
  ¬ is_skipped reload ext st →
  load_outcome ext (world st) = (w, r) →
  load_loop (ext :: rest) strict reload st =
  match r with
  | Some e =>
      if strict || negb (is_Exception e)
      then (Raise e, tried ext w (Some e) st)
      else load_loop rest strict reload
             (emit (Warn (load_warning ext e)) (tried ext w (Some e) st))
  | None =>
      load_loop rest strict reload
        (set_loaded (λ s, {[ext]} ∪ s) (tried ext w None st))
  end.
Proof.
  intros Hns Eo. cbn [load_loop]. unfold bind, gets.
  rewrite (not_skipped_test _ _ Hns), (try_load_tried _ _ _ _ Eo).
  destruct r as [e|]; [destruct (is_Exception e), strict|]; reflexivity.
Qed.

(** Every run of [load_loop] is a derivation of [loads]. *)
Lemma load_loop_loads (exts : list string) (st : state) :
  ∃ new, loads strict reload exts st
           (load_loop exts strict reload st).1
           (load_loop exts strict reload st).2 new.
Proof.
  revert st. induction exts as [|ext rest IH]; intros st.
  - exists []. apply loads_nil.
  - destruct (decide (is_skipped reload ext st)) as [Hs|Hns].
    + rewrite (load_loop_skip _ _ _ Hs).
      destruct (IH st) as [new Hnew]. exists new.
      apply loads_skip; assumption.
    + destruct (load_outcome ext (world st)) as [w r] eqn:Eo.
      rewrite (load_loop_try _ _ _ _ _ Hns Eo).
      destruct r as [e|];
        [destruct (strict || negb (is_Exception e)) eqn:Es|].
      * exists [load_event ext (Some e)]. eapply loads_raise; eauto.
        apply orb_true_iff in Es as [Es|Es]; [left; exact Es|].
        right. apply negb_true_iff. exact Es.
      * apply orb_false_iff in Es as [Es Ee]. apply negb_false_iff in Ee.
        destruct (IH (emit (Warn (load_warning ext e))
                        (tried ext w (Some e) st))) as [new Hnew].
        eexists. eapply loads_warn; eauto.
      * destruct (IH (set_loaded (λ s, {[ext]} ∪ s) (tried ext w None st)))
          as [new Hnew].
        eexists. eapply loads_add; eauto.
Qed.

Lemma loads_trace exts st r st' new :
  loads strict reload exts st r st' new →
  trace st' = trace st ++ new ∧ user_ns st' = user_ns st.
Proof.
  induction 1 as [st | ext rest st r st' new Hs _ IH | ext rest st w e Hs Es Eo
                 | ext rest st w e r st' new Hs Es Ex Eo _ IH
                 | ext rest st w r st' new Hs Eo _ IH]; cbn in *.
  - split; [symmetry; apply app_nil_r | reflexivity].
  - exact IH.
  - split; reflexivity.
  - destruct IH as [-> ->]. split; [|reflexivity].
    rewrite <- !app_assoc. reflexivity.
  - destruct IH as [-> ->]. split; [|reflexivity].
    rewrite <- !app_assoc. reflexivity.
Qed.

(** The loop records loads and warnings, nothing else. *)
Lemma loads_events exts st r st' new :
  loads strict reload exts st r st' new →
  Forall (λ ev, is_Some (load_result ev) ∨ ∃ msg, ev = Warn msg) new.
Proof.
  induction 1; repeat constructor; eauto;
    rewrite load_result_load_event; eauto.
Qed.

(** The set grows by exactly the identifiers that were loaded with
    success; nothing is taken out of it. *)
Lemma loads_loaded exts st r st' new :
  loads strict reload exts st r st' new →
  ∀ x, x ∈ _loaded_extensions st' ↔
       x ∈ _loaded_extensions st ∨ 1 ≤ successes x new.
Proof.
  unfold successes.
  induction 1 as [st | ext rest st r st' new Hs _ IH | ext rest st w e Hs Es Eo
                 | ext rest st w e r st' new Hs Es Ex Eo _ IH
                 | ext rest st w r st' new Hs Eo _ IH]; intros x; cbn;
    unfold success_of; rewrite ?load_result_load_event; cbn.
  - split; [auto | intros [?|?]; [assumption | lia]].
  - apply IH.
  - split; [auto | intros [?|?]; [assumption | lia]].
  - rewrite IH. cbn. reflexivity.
  - rewrite IH. cbn. rewrite elem_of_union, elem_of_singleton.
    destruct (String.eqb ext x) eqn:E.
    + apply String.eqb_eq in E. subst x. split; intros _; [right; lia | left; left; reflexivity].
    + apply String.eqb_neq in E.
      split; [intros [[->|?]|?]; [congruence | auto | auto] | intros [?|?]; auto].
Qed.

(** A failed load that is not caught, or is raised again under [strict],
    is the last event, and its exception is the result of the loop. *)
Lemma loads_failed_raise exts st r st' new i ev x e :
  loads strict reload exts st r st' new →
  strict = true ∨ is_Exception e = false →
  new !! i = Some ev → load_result ev = Some (x, Some e) →
  r = Raise e ∧ length new = S i.
Proof.
  intros Hl Hraise. revert i.
  induction Hl as [st | ext rest st r st' new Hs _ IH | ext rest st w e' Hs Es Eo
                 | ext rest st w e' r st' new Hs Es Ex Eo _ IH
                 | ext rest st w r st' new Hs Eo _ IH]; intros i Hi Hev.
  - discriminate.
  - eauto.
  - destruct i as [|i]; [|discriminate]. cbn in Hi. injection Hi as <-.
    rewrite load_result_load_event in Hev. injection Hev as _ <-. auto.
  - destruct i as [|[|i]]; cbn in Hi.
    + injection Hi as <-. rewrite load_result_load_event in Hev.
      injection Hev as _ <-. destruct Hraise; congruence.
    + injection Hi as <-. discriminate.
    + destruct (IH i Hi Hev) as [-> Hlen]. cbn. auto.
  - destruct i as [|i]; cbn in Hi.
    + injection Hi as <-. rewrite load_result_load_event in Hev. discriminate.
    + destruct (IH i Hi Hev) as [-> Hlen]. cbn. auto.
Qed.

(** Without [strict], the loop raises only what [except Exception] does
    not catch, and every failed load that is caught is followed by its
    warning. *)
Lemma loads_nonstrict exts st r st' new :
  loads strict reload exts st r st' new → strict = false →
  r = Ok tt ∨ ∃ e, r = Raise e ∧ is_Exception e = false.
Proof.
  induction 1 as [st | ext rest st r st' new Hs _ IH | ext rest st w e Hs Es Eo
                 | ext rest st w e r st' new Hs Es Ex Eo _ IH
                 | ext rest st w r st' new Hs Eo _ IH]; intros Hstrict; auto.
  right. exists e. split; [reflexivity|]. destruct Es; congruence.
Qed.

Lemma loads_failed_warn exts st r st' new i ev x e :
  loads strict reload exts st r st' new →
  strict = false → is_Exception e = true →
  new !! i = Some ev → load_result ev = Some (x, Some e) →
  new !! S i = Some (Warn (load_warning x e)).
Proof.
  intros Hl Hstrict Hexc. revert i.
  induction Hl as [st | ext rest st r st' new Hs _ IH | ext rest st w e' Hs Es Eo
                 | ext rest st w e' r st' new Hs Es Ex Eo _ IH
                 | ext rest st w r st' new Hs Eo _ IH]; intros i Hi Hev.
  - discriminate.
  - eauto.
  - destruct i as [|i]; [|discriminate]. cbn in Hi. injection Hi as <-.
    rewrite load_result_load_event in Hev. injection Hev as _ <-.
    destruct Es; congruence.
  - destruct i as [|[|i]]; cbn in Hi.
    + injection Hi as <-. rewrite load_result_load_event in Hev.
      injection Hev as <- <-. reflexivity.
    + injection Hi as <-. discriminate.
    + cbn. eauto.
  - destruct i as [|i]; cbn in Hi.
    + injection Hi as <-. rewrite load_result_load_event in Hev. discriminate.
    + cbn. eauto.
Qed.

(** A loop that returns has gone through the whole list: every
    identifier is loaded, except those skipped as loaded already. *)
Lemma loads_all exts st r st' new x :
  loads strict reload exts st r st' new →
  r = Ok tt → x ∈ exts →
  is_skipped reload x st ∨ 1 ≤ attempts x new.
Proof.
  unfold attempts.
  induction 1 as [st | ext rest st r st' new Hs _ IH | ext rest st w e Hs Es Eo
                 | ext rest st w e r st' new Hs Es Ex Eo _ IH
                 | ext rest st w r st' new Hs Eo _ IH]; intros Hstrict Hx;
    cbn; unfold attempt_of; rewrite ?load_result_load_event; cbn.
  - apply elem_of_nil in Hx as [].
  - apply elem_of_cons in Hx as [->|Hx]; [left; exact Hs | auto].
  - discriminate.
  - apply elem_of_cons in Hx as [->|Hx].
    + rewrite String.eqb_refl. right. lia.
    + destruct (IH Hstrict Hx) as [[Hin Hr]|Hn]; [left; split; assumption|].
      right. fold (attempt_of x). lia.
  - apply elem_of_cons in Hx as [->|Hx].
    + rewrite String.eqb_refl. right. lia.
    + destruct (String.eqb ext x) eqn:E; [right; lia|].
      apply String.eqb_neq in E.
      destruct (IH Hstrict Hx) as [[Hin Hr]|Hn]; [left | right; exact Hn].
      split; [|exact Hr]. cbn in Hin.
      apply elem_of_union in Hin as [Hin|Hin]; [|exact Hin].
      apply elem_of_singleton in Hin. congruence.
Qed.

(** With [reload=False], an identifier of the loaded set is not loaded. *)
Lemma loads_skip_loaded exts st r st' new x :
  loads strict reload exts st r st' new →
  reload = false → x ∈ _loaded_extensions st → attempts x new = 0.
Proof.
  unfold attempts.
  induction 1 as [st | ext rest st r st' new Hs _ IH | ext rest st w e Hs Es Eo
                 | ext rest st w e r st' new Hs Es Ex Eo _ IH
                 | ext rest st w r st' new Hs Eo _ IH]; intros Hr Hx;
    cbn; unfold attempt_of; rewrite ?load_result_load_event; cbn;
    try (assert (E : String.eqb ext x = false)
           by (apply String.eqb_neq; intros ->; apply Hs; split; assumption);
         rewrite E).
  - reflexivity.
  - auto.
  - reflexivity.
  - apply (IH Hr). exact Hx.
  - apply (IH Hr). cbn. apply elem_of_union. right. exact Hx.
Qed.

(** With [reload=False], no identifier is loaded twice with success. *)
Lemma loads_once exts st r st' new x :
  loads strict reload exts st r st' new →
  reload = false → successes x new ≤ 1.
Proof.
  intros Hl Hr.
  induction Hl as [st | ext rest st r st' new Hs _ IH | ext rest st w e Hs Es Eo
                 | ext rest st w e r st' new Hs Es Ex Eo Hl IH
                 | ext rest st w r st' new Hs Eo Hl IH];
    rewrite ?successes_cons_load, ?successes_cons_Warn; cbn; try lia.
  destruct (String.eqb ext x) eqn:E; [|lia].
  apply String.eqb_eq in E. subst x.
  pose proof (loads_skip_loaded _ _ _ _ _ ext Hl Hr) as Hz.
  pose proof (successes_le_attempts ext new) as Hle.
  rewrite Hz in Hle; [lia|].
  cbn. apply elem_of_union. left. apply elem_of_singleton. reflexivity.
Qed.

End ExtensionLoop.

(** ** [load_extensions] *)

Section LoadExtensions.
Context `{Collaborators}.

(** [load_extensions] is the loop over [extension_list], after the file of
    the default extension has been made sure of. *)
Lemma load_extensions_loop default exts strict environ reload st :
  ∃ st0 pre,
    load_extensions default exts strict environ reload st =
    load_loop (extension_list default environ exts) strict reload st0 ∧
    trace st0 = trace st ++ pre ∧
    _loaded_extensions st0 = _loaded_extensions st ∧
    user_ns st0 = user_ns st ∧
    Forall (λ ev, ∃ path, ev = EnsureFile path) pre.
Proof.
  unfold load_extensions, extension_list. destruct default.
  - eexists _, [EnsureFile (default_extension environ)].
    unfold bind, modify. split; [reflexivity|].
    cbn. repeat split; repeat constructor. eauto.
  - exists st, []. rewrite app_nil_r. repeat split; constructor.
Qed.

Lemma count_EnsureFile (p : event → bool) (pre : list event) :
  (∀ path, p (EnsureFile path) = false) →
  Forall (λ ev, ∃ path, ev = EnsureFile path) pre → count p pre = 0.
Proof.
  intros Hp. induction 1 as [|ev pre [path ->] _ IH]; cbn; [reflexivity|].
  rewrite Hp, IH. reflexivity.
Qed.

(** The facts about the loop, for a whole call. *)
Lemma load_extensions_facts default exts strict environ reload st :
  ∃ new,
    let r := (load_extensions default exts strict environ reload st).1 in
    let st' := (load_extensions default exts strict environ reload st).2 in
    trace st' = trace st ++ new ∧
    user_ns st' = user_ns st ∧
    Forall (λ ev, prints ev = false ∧ persists ev = false) new ∧
    (∀ x, x ∈ _loaded_extensions st' ↔
          x ∈ _loaded_extensions st ∨ 1 ≤ successes x new) ∧
    (∀ i ev x e, new !! i = Some ev → load_result ev = Some (x, Some e) →
       if strict || negb (is_Exception e)
       then r = Raise e ∧ length new = S i
       else new !! S i = Some (Warn (load_warning x e))) ∧
    (strict = false → r = Ok tt ∨ ∃ e, r = Raise e ∧ is_Exception e = false) ∧
    (r = Ok tt → ∀ x, x ∈ exts →
       is_skipped reload x st ∨ 1 ≤ attempts x new) ∧
    (reload = false → ∀ x, x ∈ _loaded_extensions st → attempts x new = 0) ∧
    (reload = false → ∀ x, successes x new ≤ 1).
Proof.
  destruct (load_extensions_loop default exts strict environ reload st)
    as (st0 & pre & -> & Ht0 & Hl0 & Hu0 & Hpre).
  destruct (load_loop_loads strict reload (extension_list default environ exts)
              st0) as [new Hloads].
  destruct (loads_trace _ _ _ _ _ _ _ Hloads) as [Ht Hu].
  assert (Hc : ∀ p, (∀ path, p (EnsureFile path) = false) →
                    count p (pre ++ new) = count p new).
  { intros p Hp. rewrite count_app, (count_EnsureFile _ _ Hp Hpre). reflexivity. }
  assert (Hsucc : ∀ x, successes x (pre ++ new) = successes x new)
    by (intros x; apply Hc; reflexivity).
  assert (Hatt : ∀ x, attempts x (pre ++ new) = attempts x new)
    by (intros x; apply Hc; reflexivity).
  exists (pre ++ new). cbn zeta.
  split; [rewrite Ht, Ht0; symmetry; apply app_assoc|].
  split; [congruence|].
  split.
  { apply Forall_app. split.
    - eapply Forall_impl; [exact Hpre|]. intros ev [path ->]. split; reflexivity.
    - eapply Forall_impl; [exact (loads_events _ _ _ _ _ _ _ Hloads)|].
      intros ev [[[x r] Hev]|[msg ->]]; [|split; reflexivity].
      destruct ev; cbn in Hev; try discriminate; split; reflexivity. }
  split.
  { intros x. rewrite Hsucc, <- Hl0.
    exact (loads_loaded _ _ _ _ _ _ _ Hloads x). }
  split.
  { intros i ev x e Hi Hev.
    assert (Hge : length pre ≤ i).
    { destruct (decide (length pre ≤ i)) as [|Hlt]; [assumption|].
      rewrite lookup_app_l in Hi by lia.
      destruct (Forall_lookup_1 _ _ _ _ Hpre Hi) as [path ->]. discriminate. }
    rewrite lookup_app_r in Hi by exact Hge.
    destruct (strict || negb (is_Exception e)) eqn:Ecase.
    - assert (Hraise : strict = true ∨ is_Exception e = false).
      { apply orb_true_iff in Ecase as [Es|Ee]; [left; exact Es|].
        right. apply negb_true_iff. exact Ee. }
      destruct (loads_failed_raise _ _ _ _ _ _ _ _ _ _ _ Hloads Hraise Hi Hev)
        as [-> Hlen].
      split; [reflexivity|]. rewrite length_app, Hlen. lia.
    - apply orb_false_iff in Ecase as [Es Ee]. apply negb_false_iff in Ee.
      rewrite lookup_app_r by lia.
      replace (S i - length pre) with (S (i - length pre)) by lia.
      exact (loads_failed_warn _ _ _ _ _ _ _ _ _ _ _ Hloads Es Ee Hi Hev). }
  split; [intros Es; exact (loads_nonstrict _ _ _ _ _ _ _ Hloads Es)|].
  split.
  { intros Es x Hx. rewrite Hatt.
    destruct (loads_all _ _ _ _ _ _ _ x Hloads Es) as [[Hin Hr]|Hn].
    - unfold extension_list. destruct default; [right|]; exact Hx.
    - left. split; [rewrite <- Hl0; exact Hin | exact Hr].
    - right. exact Hn. }
  split.
  - intros Hr x Hx. rewrite Hatt.
    apply (loads_skip_loaded _ _ _ _ _ _ _ x Hloads Hr).
    rewrite Hl0. exact Hx.
  - intros Hr x. rewrite Hsucc. exact (loads_once _ _ _ _ _ _ _ x Hloads Hr).
Qed.



End LoadExtensions.

(** ** The stages of [_run] *)

Section Stages.
Context `{Collaborators}.

Lemma load_benchmark_run (a : RunArgs) (st : state) :
  ∃ b st',
    load_benchmark a st = (Ok b, st') ∧
    extends (λ ev, ev = LoadMarketData (environ a)) st st' ∧
    world st' = world st ∧ user_ns st' = user_ns st ∧
    (benchmark_returns a = None →
     trace st' = trace st ++ [LoadMarketData (environ a)]).
Proof.
  unfold load_benchmark. destruct (benchmark_returns a) as [b|].
  - exists b, st. repeat split; [apply extends_refl | discriminate].
  - eexists _, _. unfold bind, modify, ret.
    repeat split. apply extends_emit. reflexivity.
Qed.

Lemma eval_define_run (shared : bool) (name value : string)
    (ns : gmap string Value) (st : state) :
  extends (λ ev, is_eval ev = true) st (eval_define shared name value ns st).2 ∧
  world (eval_define shared name value ns st).2 = world st ∧
  (shared = false → user_ns (eval_define shared name value ns st).2 = user_ns st).
Proof.
  unfold eval_define. destruct (py_eval value ns) as [ns' [v|e]];
    unfold bind, modify, ret, raise; cbn.
  - destruct shared; cbn; (split; [|split; [reflexivity|]]);
      try (exists [Eval value (Ok v)]; split; [reflexivity | repeat constructor]);
      try discriminate; reflexivity.
  - destruct (is_Exception e), shared; cbn; (split; [|split; [reflexivity|]]);
      try (exists [Eval value (Raise e)];
           split; [reflexivity | repeat constructor]);
      try discriminate; reflexivity.
Qed.

Lemma define_loop_run (shared : bool) (defines : list string)
    (ns : gmap string Value) (st : state) :
  extends (λ ev, is_eval ev = true) st (define_loop shared defines ns st).2 ∧
  world (define_loop shared defines ns st).2 = world st ∧
  (shared = false → user_ns (define_loop shared defines ns st).2 = user_ns st).
Proof.
  revert ns st. induction defines as [|assign rest IH]; intros ns st; cbn.
  - repeat split. apply extends_refl.
  - destruct (split_define assign) as [[name value]|e]; cbn.
    + unfold bind.
      pose proof (eval_define_run shared name value ns st) as (He & Hw & Hu).
      destruct (eval_define shared name value ns st) as [[ns'|e] st']; cbn in *.
      * destruct (IH ns' st') as (He' & Hw' & Hu').
        split; [eapply extends_trans; eassumption|].
        split; [congruence|]. intros Hs. rewrite Hu', Hu by exact Hs. reflexivity.
      * auto.
    + repeat split. apply extends_refl.
Qed.

Lemma build_namespace_run (a : RunArgs) (st : state) :
  extends (λ ev, is_eval ev = true ∨ ∃ f, ev = FileRead f) st
    (build_namespace a st).2 ∧
  world (build_namespace a st).2 = world st.
Proof.
  unfold build_namespace. destruct (algotext a) as [text|].
  - unfold bind.
    assert (Hns : ∃ ns0, (if local_namespace a then gets user_ns else ret ∅) st
                         = (Ok ns0, st))
      by (destruct (local_namespace a); eexists; reflexivity).
    destruct Hns as [ns0 ->].
    pose proof (define_loop_run (local_namespace a) (defines a) ns0 st)
      as (He & Hw & _).
    destruct (define_loop (local_namespace a) (defines a) ns0 st)
      as [[ns|e] st']; cbn in *;
      (split; [|exact Hw]); (eapply extends_impl; [|exact He]); auto.
  - destruct (defines a); [destruct (algofile a) as [f|]|]; cbn.
    + split; [|reflexivity]. apply extends_emit. eauto.
    + split; [apply extends_refl | reflexivity].
    + split; [apply extends_refl | reflexivity].
Qed.

(** Definitions without source text: nothing is evaluated. *)
Lemma build_namespace_conflict (a : RunArgs) (st : state) :
  algotext a = None → defines a ≠ [] →
  build_namespace a st = (Raise conflict_error, st).
Proof.
  intros Ht Hd. unfold build_namespace. rewrite Ht.
  destruct (defines a); [contradiction | reflexivity].
Qed.

Lemma echo_algo_run (a : RunArgs) (text : option string) (st : state) :
  ∃ st',
    echo_algo a text st = (Ok tt, st') ∧
    extends (λ ev, prints ev = true ∧ print_algo a = true) st st' ∧
    world st' = world st.
Proof.
  unfold echo_algo. destruct (print_algo a); [destruct PYGMENTS|];
    eexists; (split; [reflexivity|]); (split; [|reflexivity]);
    try (apply extends_emit; split; reflexivity).
  apply extends_refl.
Qed.

Lemma check_dates_run (a : RunArgs) (st : state) :
  check_dates a st =
  (if (session_distance (calendar_of a) (start a) (end_ a) <? 1)%Z
   then Raise (no_trading_days (start a) (end_ a))
   else Ok (calendar_of a), st).
Proof.
  unfold check_dates.
  destruct (session_distance (calendar_of a) (start a) (end_ a) <? 1)%Z;
    reflexivity.
Qed.

Lemma open_data_run (a : RunArgs) (calendar : Calendar) (st : state) :
  ∃ data st',
    open_data a calendar st =
      (Ok (data,
           let bd := bundles_load (bundle a) (environ a) (bundle_timestamp a) in
           USEquityPricingLoader (equity_daily_bar_reader bd)
             (adjustment_reader bd)), st') ∧
    extends (λ ev, opens_bundle ev = true) st st' ∧
    world st' = world st.
Proof.
  unfold open_data, bind, modify, ret.
  destruct (custom_data_portal a) as [portal|]; cbn;
    eexists _, _; (split; [reflexivity|]); (split; [|reflexivity]).
  - eexists [_; _]. cbn. rewrite <- app_assoc.
    split; [reflexivity | repeat constructor].
  - eexists [_; _; _]. cbn. rewrite <- !app_assoc.
    split; [reflexivity | repeat constructor].
Qed.

(** A lookup in a registry does what [resolved] says. *)
Lemma registry_load_run {C : Type} (kind : string)
    (registry : World → gmap string (unit → C)) (name : string) (st : state) :
  as_RunAlgoError (registry_load kind registry name) st =
  (resolved kind (registry (world st)) (inl name), st).
Proof.
  unfold as_RunAlgoError, registry_load, resolved.
  destruct (registry (world st) !! name); reflexivity.
Qed.

Lemma resolve_metrics_set_run (a : RunArgs) (st : state) :
  ∃ st',
    resolve_metrics_set a st =
      (resolved "metrics set" (metrics_registry (world st)) (metrics_set a),
       st') ∧
    extends (λ ev, ∃ name, ev = MetricsLoad name) st st' ∧
    world st' = world st.
Proof.
  unfold resolve_metrics_set. destruct (metrics_set a) as [name|instance].
  - exists (emit (MetricsLoad name) st).
    split; [|split; [apply extends_emit; eauto | reflexivity]].
    pose proof (registry_load_run "metrics set" metrics_registry name
                  (emit (MetricsLoad name) st)) as Hr.
    unfold as_RunAlgoError, metrics_load, bind, modify in *. cbn in *.
    exact Hr.
  - exists st. repeat split. apply extends_refl.
Qed.

Lemma resolve_blotter_run (a : RunArgs) (st : state) :
  ∃ st',
    resolve_blotter a st =
      (resolved "blotter" (blotter_registry (world st)) (blotter a), st') ∧
    extends (λ ev, ∃ name, ev = BlotterLoad name) st st' ∧
    world st' = world st.
Proof.
  unfold resolve_blotter. destruct (blotter a) as [name|instance].
  - exists (emit (BlotterLoad name) st).
    split; [|split; [apply extends_emit; eauto | reflexivity]].
    pose proof (registry_load_run "blotter" blotter_registry name
                  (emit (BlotterLoad name) st)) as Hr.
    unfold as_RunAlgoError, extensions_load_Blotter, bind, modify in *.
    cbn in *. exact Hr.
  - exists st. repeat split. apply extends_refl.
Qed.

(** The three output routes. *)
Lemma write_output_run (a : RunArgs) (perf : Perf) (st : state) :
  ∃ st' out,
    write_output a perf st = (Ok tt, st') ∧
    trace st' = trace st ++ out ∧
    (output a = "-" → out = [Echo (Some (perf_str perf))]) ∧
    (output a = os_devnull os → out = []) ∧
    (output a ≠ "-" → output a ≠ os_devnull os →
     out = [ToPickle perf (output a)]).
Proof.
  unfold write_output.
  destruct (String.eqb (output a) "-") eqn:Edash.
  - apply String.eqb_eq in Edash.
    eexists _, [_]. split; [reflexivity|]. split; [reflexivity|].
    split; [reflexivity|]. split; [|contradiction].
    intros Hnull. rewrite Hnull in Edash. destruct os; discriminate.
  - apply String.eqb_neq in Edash.
    destruct (String.eqb (output a) (os_devnull os)) eqn:Enull; cbn.
    + apply String.eqb_eq in Enull.
      exists st, []. rewrite app_nil_r. repeat split; [contradiction..].
    + apply String.eqb_neq in Enull.
      eexists _, [_]. split; [reflexivity|]. split; [reflexivity|].
      repeat split; contradiction.
Qed.

End Stages.

(** ** [_run] as a whole *)

Section Run.
Context `{Collaborators}.

Lemma bind_Ok {A B} (m : M A) (k : A → M B) (st st' : state) (x : A) :
  m st = (Ok x, st') → bind m k st = k x st'.
Proof. intros E. unfold bind. rewrite E. reflexivity. Qed.

Lemma bind_Raise {A B} (m : M A) (k : A → M B) (st st' : state) (e : exn) :
  m st = (Raise e, st') → bind m k st = (Raise e, st').
Proof. intros E. unfold bind. rewrite E. reflexivity. Qed.

(** Every run of [_run] follows one of the paths of [run_path]. *)
Lemma _run_path (a : RunArgs) (st : state) :
  ∃ r st', _run a st = (r, st') ∧ run_path a st r st'.
Proof.
  destruct (load_benchmark_run a st) as (b & s1 & E1 & _).
  unfold _run. rewrite (bind_Ok _ _ _ _ _ E1).
  destruct (build_namespace a s1) as [[[ns text]|e] s2] eqn:E2.
  2: { rewrite (bind_Raise _ _ _ _ _ E2). eexists _, _.
       split; [reflexivity|]. eapply path_definitions; eassumption. }
  rewrite (bind_Ok _ _ _ _ _ E2).
  destruct (echo_algo_run a text s2) as (s3 & E3 & _).
  rewrite (bind_Ok _ _ _ _ _ E3).
  pose proof (check_dates_run a s3) as E4.
  destruct (Z.ltb_spec (session_distance (calendar_of a) (start a) (end_ a)) 1)
    as [Hd|Hd].
  { rewrite (bind_Raise _ _ _ _ _ E4). eexists _, _.
    split; [reflexivity|]. eapply path_dates; eassumption. }
  rewrite (bind_Ok _ _ _ _ _ E4).
  destruct (open_data_run a (calendar_of a) s3) as (data & s4 & E5 & _).
  rewrite (bind_Ok _ _ _ _ _ E5).
  destruct (resolve_metrics_set a s4) as [[m|e] s5] eqn:E6.
  2: { rewrite (bind_Raise _ _ _ _ _ E6). eexists _, _.
       split; [reflexivity|]. eapply path_metrics; eassumption. }
  rewrite (bind_Ok _ _ _ _ _ E6).
  destruct (resolve_blotter a s5) as [[bl|e] s6] eqn:E7.
  2: { rewrite (bind_Raise _ _ _ _ _ E7). eexists _, _.
       split; [reflexivity|]. eapply path_blotter; eassumption. }
  rewrite (bind_Ok _ _ _ _ _ E7).
  cbn zeta.
  set (algo := new_algorithm a b ns text (calendar_of a) data _ m bl).
  destruct (write_output_run a (TradingAlgorithm_run algo)
              (emit (RunAlgorithm algo) s6)) as (s7 & out & E8 & _).
  erewrite (bind_Ok (modify (emit (RunAlgorithm algo)))) by reflexivity.
  rewrite (bind_Ok _ _ _ _ _ E8).
  eexists _, _. split; [reflexivity|].
  eapply path_completes; try eassumption. reflexivity.
Qed.

Lemma before_validation_quiet (a : RunArgs) (ev : event) :
  before_validation a ev →
  opens_bundle ev = false ∧ runs_simulation ev = false ∧
  persists ev = false ∧ (prints ev = true → print_algo a = true).
Proof.
  intros [->|[Hev|[[f ->]|[Hev Hp]]]]; cbn.
  - repeat split; discriminate.
  - destruct ev; cbn in *; try discriminate; repeat split; discriminate.
  - repeat split; discriminate.
  - destruct ev; cbn in *; try discriminate; repeat split; auto.
Qed.

Lemma before_simulation_quiet (a : RunArgs) (ev : event) :
  before_simulation a ev →
  runs_simulation ev = false ∧ persists ev = false ∧
  (prints ev = true → print_algo a = true).
Proof.
  intros [Hev|[Hev|[[name ->]|[name ->]]]]; cbn.
  - apply before_validation_quiet in Hev. tauto.
  - destruct ev; cbn in *; try discriminate; repeat split; discriminate.
  - repeat split; discriminate.
  - repeat split; discriminate.
Qed.

(** The run up to the date validation. *)
Lemma reach_validation (a : RunArgs) (st : state) b s1 r s2 :
  load_benchmark a st = (Ok b, s1) →
  build_namespace a s1 = (r, s2) →
  extends (before_validation a) st s2 ∧ world s2 = world st ∧
  (benchmark_returns a = None →
   LoadMarketData (environ a) ∈ events_since st s2).
Proof.
  intros E1 E2.
  destruct (load_benchmark_run a st) as (b' & s1' & E1' & He1 & Hw1 & _ & Hb).
  rewrite E1 in E1'. injection E1' as <- <-.
  pose proof (build_namespace_run a s1) as [He2 Hw2].
  rewrite E2 in He2, Hw2. cbn in He2, Hw2.
  assert (Hx : extends (before_validation a) s1 s2).
  { eapply extends_impl; [|exact He2]. intros ev [?|?]; red; auto. }
  split; [|split].
  - eapply extends_trans; [|exact Hx].
    eapply extends_impl; [|exact He1]. intros ev ->. left. reflexivity.
  - congruence.
  - intros Hnone. destruct Hx as (new & Ht & _).
    rewrite (events_since_app st s2 ([LoadMarketData (environ a)] ++ new)).
    + apply elem_of_cons. left. reflexivity.
    + rewrite Ht, (Hb Hnone). symmetry. apply app_assoc.
Qed.

Lemma reach_validation_echo (a : RunArgs) (st : state) b s1 r s2 text s3 :
  load_benchmark a st = (Ok b, s1) →
  build_namespace a s1 = (r, s2) →
  echo_algo a text s2 = (Ok tt, s3) →
  extends (before_validation a) st s3 ∧ world s3 = world st ∧
  (benchmark_returns a = None →
   LoadMarketData (environ a) ∈ events_since st s3).
Proof.
  intros E1 E2 E3.
  destruct (reach_validation a st b s1 r s2 E1 E2) as (He & Hw & Hb).
  destruct (echo_algo_run a text s2) as (s3' & E3' & He3 & Hw3).
  rewrite E3 in E3'. injection E3' as <-.
  split; [|split].
  - eapply extends_trans; [exact He|].
    eapply extends_impl; [|exact He3]. intros ev Hev. red. auto.
  - congruence.
  - intros Hnone. specialize (Hb Hnone).
    destruct He as (new & Ht & _). destruct He3 as (new3 & Ht3 & _).
    rewrite (events_since_app _ _ _ Ht) in Hb.
    rewrite (events_since_app st s3 (new ++ new3)).
    + apply elem_of_app. left. exact Hb.
    + rewrite Ht3, Ht. symmetry. apply app_assoc.
Qed.

(** From the date validation to the lookup of the metrics set. *)
Lemma reach_metrics (a : RunArgs) s3 data loader s4 r s5 :
  open_data a (calendar_of a) s3 = (Ok (data, loader), s4) →
  resolve_metrics_set a s4 = (r, s5) →
  extends (before_simulation a) s3 s5 ∧ world s5 = world s3 ∧
  loader =
    (let bd := bundles_load (bundle a) (environ a) (bundle_timestamp a) in
     USEquityPricingLoader (equity_daily_bar_reader bd) (adjustment_reader bd)) ∧
  r = resolved "metrics set" (metrics_registry (world s3)) (metrics_set a).
Proof.
  intros E4 E5.
  destruct (open_data_run a (calendar_of a) s3) as (d' & s4' & E4' & He4 & Hw4).
  rewrite E4 in E4'. injection E4' as <- -> <-.
  destruct (resolve_metrics_set_run a s4) as (s5' & E5' & He5 & Hw5).
  rewrite E5 in E5'. injection E5' as -> <-.
  split; [|split; [|split]].
  - eapply extends_trans.
    + eapply extends_impl; [|exact He4]. intros ev Hev. red. auto.
    + eapply extends_impl; [|exact He5]. intros ev Hev. red. auto.
  - congruence.
  - reflexivity.
  - rewrite Hw4. reflexivity.
Qed.

Lemma reach_blotter (a : RunArgs) s5 r s6 :
  resolve_blotter a s5 = (r, s6) →
  extends (before_simulation a) s5 s6 ∧ world s6 = world s5 ∧
  r = resolved "blotter" (blotter_registry (world s5)) (blotter a).
Proof.
  intros E6.
  destruct (resolve_blotter_run a s5) as (s6' & E6' & He6 & Hw6).
  rewrite E6 in E6'. injection E6' as -> <-.
  split; [|split; [exact Hw6 | reflexivity]].
  eapply extends_impl; [|exact He6]. intros ev Hev. red. auto.
Qed.

(** What each path of [_run] records, and why the run ends there. *)
Lemma run_path_anatomy (a : RunArgs) (st : state) r st' :
  run_path a st r st' →
  let dist := session_distance (calendar_of a) (start a) (end_ a) in
  let namespace := (build_namespace a (load_benchmark a st).2).1 in
  let metrics :=
    resolved "metrics set" (metrics_registry (world st)) (metrics_set a) in
  let blotters :=
    resolved "blotter" (blotter_registry (world st)) (blotter a) in
  match r with
  | Raise e =>
      extends (before_simulation a) st st' ∧
      (namespace = Raise e ∨
       (dist < 1)%Z ∧ e = no_trading_days (start a) (end_ a) ∨
       (1 ≤ dist)%Z ∧ metrics = Raise e ∨
       (1 ≤ dist)%Z ∧ (∃ m, metrics = Ok m) ∧ blotters = Raise e)
  | Ok perf =>
      ∃ algo before out,
        perf = TradingAlgorithm_run algo ∧
        trace st' = trace st ++ before ++ RunAlgorithm algo :: out ∧
        Forall (before_simulation a) before ∧
        (output a = "-" → out = [Echo (Some (perf_str perf))]) ∧
        (output a = os_devnull os → out = []) ∧
        (output a ≠ "-" → output a ≠ os_devnull os →
         out = [ToPickle perf (output a)]) ∧
        (1 ≤ dist)%Z ∧
        (∃ text, namespace = Ok (ta_namespace algo, text)) ∧
        metrics = Ok (ta_metrics_set algo) ∧
        blotters = Ok (ta_blotter algo) ∧
        ta_get_pipeline_loader algo =
          choose_loader
            (let bd := bundles_load (bundle a) (environ a) (bundle_timestamp a)
             in USEquityPricingLoader (equity_daily_bar_reader bd)
                  (adjustment_reader bd))
  end.
Proof.
  intros Hp dist namespace metrics blotters.
  assert (Hval : ∀ s1 s2, extends (before_validation a) s1 s2 →
                          extends (before_simulation a) s1 s2).
  { intros s1 s2. apply extends_impl. intros ev Hev. left. exact Hev. }
  destruct Hp as [b s1 e s2 E1 E2
                 | b s1 ns text s2 s3 E1 E2 E3 Hd
                 | b s1 ns text s2 s3 data loader s4 e s5 E1 E2 E3 Hd E4 E5
                 | b s1 ns text s2 s3 data loader s4 m s5 e s6
                     E1 E2 E3 Hd E4 E5 E6
                 | b s1 ns text s2 s3 data loader s4 m s5 bl s6 algo s7
                     E1 E2 E3 Hd E4 E5 E6 Ealgo E7].
  - destruct (reach_validation a st b s1 _ s2 E1 E2) as (He & _).
    split; [auto|]. left. subst namespace. rewrite E1. cbn. rewrite E2.
    reflexivity.
  - destruct (reach_validation_echo a st b s1 _ s2 text s3 E1 E2 E3) as (He & _).
    split; [auto|]. right. left. auto.
  - destruct (reach_validation_echo a st b s1 _ s2 text s3 E1 E2 E3)
      as (He & Hw & _).
    destruct (reach_metrics a s3 data loader s4 _ s5 E4 E5) as (He' & _ & _ & Hm).
    split; [eapply extends_trans; eauto|].
    right. right. left. split; [exact Hd|]. subst metrics.
    rewrite <- Hw. symmetry. exact Hm.
  - destruct (reach_validation_echo a st b s1 _ s2 text s3 E1 E2 E3)
      as (He & Hw & _).
    destruct (reach_metrics a s3 data loader s4 _ s5 E4 E5)
      as (He' & Hw' & _ & Hm).
    destruct (reach_blotter a s5 _ s6 E6) as (He'' & _ & Hb).
    split; [eapply extends_trans; [|exact He'']; eapply extends_trans; eauto|].
    right. right. right. split; [exact Hd|]. subst metrics blotters.
    rewrite <- Hw. split; [eauto|]. rewrite <- Hw'. symmetry. exact Hb.
  - destruct (reach_validation_echo a st b s1 _ s2 text s3 E1 E2 E3)
      as (He & Hw & _).
    destruct (reach_metrics a s3 data loader s4 _ s5 E4 E5)
      as (He' & Hw' & Hl & Hm).
    destruct (reach_blotter a s5 _ s6 E6) as (He'' & _ & Hb).
    assert (Hex : extends (before_simulation a) st s6).
    { eapply extends_trans; [|exact He'']. eapply extends_trans; eauto. }
    destruct Hex as (before & Ht & Hbefore).
    destruct (write_output_run a (TradingAlgorithm_run algo)
                (emit (RunAlgorithm algo) s6))
      as (s7' & out & E7' & Htout & Hdash & Hnull & Hfile).
    rewrite E7 in E7'. injection E7' as <-.
    exists algo, before, out.
    split; [reflexivity|]. split.
    { rewrite Htout. cbn. rewrite Ht. rewrite <- !app_assoc. reflexivity. }
    split; [exact Hbefore|].
    split; [exact Hdash|]. split; [exact Hnull|]. split; [exact Hfile|].
    split; [exact Hd|].
    subst algo namespace metrics blotters. cbn.
    split; [exists text; rewrite E1; cbn; rewrite E2; reflexivity|].
    split; [rewrite <- Hw; symmetry; exact Hm|].
    split; [rewrite <- Hw, <- Hw'; symmetry; exact Hb|].
    rewrite Hl. reflexivity.
Qed.

End Run.

(** ** The definitions namespace *)

Section Definitions.
Context `{Collaborators}.

Lemma define_loop_app (shared : bool) (pre post : list string)
    (ns : gmap string Value) (st : state) :
  define_loop shared (pre ++ post) ns st =
  match define_loop shared pre ns st with
  | (Ok ns', st') => define_loop shared post ns' st'
  | (Raise e, st') => (Raise e, st')
  end.
Proof.
  revert ns st. induction pre as [|assign pre IH]; intros ns st; cbn.
  - reflexivity.
  - destruct (split_define assign) as [[name value]|e]; [|reflexivity].
    unfold bind.
    destruct (eval_define shared name value ns st) as [[ns'|e] st'];
      [apply IH | reflexivity].
Qed.

(** C5 (amended).  Let the definitions before [name=value] have been
    bound, giving the namespace [ns_pre].  If evaluating [value] in
    [ns_pre] yields [v], then [name] is bound to [v] in the namespace the
    evaluation left, and the loop goes on from there.  If it raises an
    [Exception] [e], the builder raises the error that carries [name] and
    [str(e)]; if it raises what is no [Exception], that propagates as it
    is.  In both cases the bindings made so far stay in the namespace. *)
Theorem definitions_bind_in_order (shared : bool) (pre post : list string)
    (name value : string) (ns0 ns_pre : gmap string Value) (st st_pre : state) :
  count_char "=" name = 0 → count_char "=" value = 0 →
  define_loop shared pre ns0 st = (Ok ns_pre, st_pre) →
  let assign := name +:+ "=" +:+ value in
  match py_eval value ns_pre with
  | (ns', Ok v) =>
      ∃ st',
        trace st' = trace st_pre ++ [Eval value (Ok v)] ∧
        define_loop shared (pre ++ [assign]) ns0 st
          = (Ok (<[name := v]> ns'), st') ∧
        (<[name := v]> ns') !! name = Some v ∧
        define_loop shared (pre ++ assign :: post) ns0 st
          = define_loop shared post (<[name := v]> ns') st' ∧
        (shared = true → user_ns st' = <[name := v]> ns')
  | (ns', Raise e) =>
      ∃ st',
        trace st' = trace st_pre ++ [Eval value (Raise e)] ∧
        define_loop shared (pre ++ assign :: post) ns0 st
          = (Raise (if is_Exception e then failed_definition name e else e),
             st') ∧
        (shared = true → user_ns st' = ns')
  end.
Proof.
  intros Hname Hvalue Hpre assign.
  pose proof (split_define_one_equals name value Hname Hvalue) as Hsplit.
  fold assign in Hsplit.
  assert (Hstep : ∀ rest, define_loop shared (pre ++ assign :: rest) ns0 st =
            bind (eval_define shared name value ns_pre)
                 (define_loop shared rest) st_pre).
  { intros rest. rewrite define_loop_app, Hpre. cbn. rewrite Hsplit.
    reflexivity. }
  unfold bind, eval_define in Hstep.
  destruct (py_eval value ns_pre) as [ns' [v|e]];
    [|destruct (is_Exception e)];
    unfold bind, modify, ret, raise in Hstep; cbn in Hstep.
  - eexists. split; [|split; [apply (Hstep [])|split; [|split]]].
    + destruct shared; reflexivity.
    + apply lookup_insert_eq.
    + apply Hstep.
    + intros ->. reflexivity.
  - eexists. split; [|split; [apply Hstep|]].
    + destruct shared; reflexivity.
    + intros ->. reflexivity.
  - eexists. split; [|split; [apply Hstep|]].
    + destruct shared; reflexivity.
    + intros ->. reflexivity.
Qed.

End Definitions.

(** ** The claims about [_run] and [run_algorithm] *)

Section Claims.
Context `{Collaborators}.

(** C3 (amended).  When the session distance from [start] to [end] is
    below one, the run fails: with the error naming the two dates, unless
    the definitions before it already failed; the bundle is not loaded, the
    data portal and the pipeline loader are not built and the simulation
    does not run.  The benchmark market data has been read by then, when no
    benchmark returns were supplied. *)
Theorem empty_range_fails_before_bundle (a : RunArgs) (st : state) :
  (session_distance (calendar_of a) (start a) (end_ a) < 1)%Z →
  ∃ e st',
    _run a st = (Raise e, st') ∧
    match (build_namespace a (load_benchmark a st).2).1 with
    | Ok _ => e = no_trading_days (start a) (end_ a)
    | Raise e' => e = e'
    end ∧
    Forall (λ ev, opens_bundle ev = false ∧ runs_simulation ev = false)
      (events_since st st') ∧
    (benchmark_returns a = None →
     LoadMarketData (environ a) ∈ events_since st st').
Proof.
  intros Hd.
  assert (Hq : ∀ s, extends (before_validation a) st s →
    Forall (λ ev, opens_bundle ev = false ∧ runs_simulation ev = false)
      (events_since st s)).
  { intros s He. apply extends_events_since.
    eapply extends_impl; [|exact He].
    intros ev Hev. apply before_validation_quiet in Hev. tauto. }
  destruct (_run_path a st) as (r & st' & E & Hp).
  destruct Hp as [b s1 e s2 E1 E2
                 | b s1 ns text s2 s3 E1 E2 E3 _
                 | b s1 ns text s2 s3 data loader s4 e s5 E1 E2 E3 Hd' E4 E5
                 | b s1 ns text s2 s3 data loader s4 m s5 e s6
                     E1 E2 E3 Hd' E4 E5 E6
                 | b s1 ns text s2 s3 data loader s4 m s5 bl s6 algo s7
                     E1 E2 E3 Hd' E4 E5 E6 Ealgo E7]; try lia.
  - destruct (reach_validation a st b s1 _ s2 E1 E2) as (He & _ & Hb).
    exists e, s2. split; [exact E|]. rewrite E1. cbn. rewrite E2. cbn. auto.
  - destruct (reach_validation_echo a st b s1 _ s2 text s3 E1 E2 E3)
      as (He & _ & Hb).
    eexists _, s3. split; [exact E|]. rewrite E1. cbn. rewrite E2. cbn. auto.
Qed.

(** C6.  A run with definitions and without source text fails with the
    error of that conflict; no definition has been evaluated and the
    namespace of the interactive session is untouched. *)
Theorem defines_without_algotext (a : RunArgs) (st : state) :
  algotext a = None → defines a ≠ [] →
  ∃ st',
    _run a st = (Raise conflict_error, st') ∧
    Forall (λ ev, is_eval ev = false) (events_since st st') ∧
    user_ns st' = user_ns st.
Proof.
  intros Ht Hdef.
  destruct (load_benchmark_run a st) as (b & s1 & E1 & He1 & _ & Hu1 & _).
  exists s1. split; [|split; [|exact Hu1]].
  - unfold _run. rewrite (bind_Ok _ _ _ _ _ E1).
    apply bind_Raise. apply build_namespace_conflict; assumption.
  - apply extends_events_since. eapply extends_impl; [|exact He1].
    intros ev ->. reflexivity.
Qed.


(** C8.  The dispatch function returns the pricing loader for a column of
    [USEquityPricing.columns] and raises the error naming the column for
    any other; and the function handed to the simulation is this one, on
    the loader built from the readers of the bundle. *)
Theorem choose_loader_dispatch (pipeline_loader : Loader) (column : Column) :
  (column ∈ USEquityPricing_columns →
   choose_loader pipeline_loader column = Ok pipeline_loader) ∧
  (column ∉ USEquityPricing_columns →
   choose_loader pipeline_loader column =
   Raise (ValueError ("No PipelineLoader registered for column " +:+
                      column_str column +:+ "."))) ∧
  (∀ a st perf st',
     _run a st = (Ok perf, st') →
     ∃ algo,
       RunAlgorithm algo ∈ events_since st st' ∧
       ta_get_pipeline_loader algo =
         choose_loader
           (let bd := bundles_load (bundle a) (environ a) (bundle_timestamp a)
            in USEquityPricingLoader (equity_daily_bar_reader bd)
                 (adjustment_reader bd))).
Proof.
  unfold choose_loader. split; [|split].
  - intros Hin. rewrite bool_decide_eq_true_2 by exact Hin. reflexivity.
  - intros Hnot. rewrite bool_decide_eq_false_2 by exact Hnot. reflexivity.
  - intros a st perf st' E.
    destruct (_run_path a st) as (r & st'' & E' & Hp).
    rewrite E in E'. injection E' as <- <-.
    pose proof (run_path_anatomy a st _ _ Hp) as Ha. cbn zeta in Ha.
    destruct Ha as (algo & before & out & _ & Hev & _ & _ & _ & _ & _ & _
                    & _ & _ & Hl).
    exists algo. split; [|exact Hl].
    rewrite (events_since_app _ _ _ Hev). apply elem_of_app. right. apply elem_of_cons. left. reflexivity.
Qed.

(** C9.  In a completed run the events after the simulation are decided
    by [output] alone: [-] echoes the result and writes nothing, the null
    device neither echoes nor writes, any other destination gets the
    pickled result and nothing is echoed; the result returned is that of
    the simulation in each case. *)
Theorem output_routing (a : RunArgs) (st st' : state) (perf : Perf) :
  _run a st = (Ok perf, st') →
  ∃ algo before out,
    perf = TradingAlgorithm_run algo ∧
    events_since st st' = before ++ RunAlgorithm algo :: out ∧
    Forall (λ ev, runs_simulation ev = false ∧ persists ev = false) before ∧
    (output a = "-" → out = [Echo (Some (perf_str perf))]) ∧
    (output a = os_devnull os → out = []) ∧
    (output a ≠ "-" → output a ≠ os_devnull os →
     out = [ToPickle perf (output a)]).
Proof.
  intros E.
  destruct (_run_path a st) as (r & st'' & E' & Hp).
  rewrite E in E'. injection E' as <- <-.
  pose proof (run_path_anatomy a st _ _ Hp) as Ha. cbn zeta in Ha.
  destruct Ha as (algo & before & out & Hperf & Hev & Hbefore & Hdash & Hnull
                  & Hfile & _).
  exists algo, before, out. split; [exact Hperf|].
  split; [apply events_since_app; exact Hev|].
  split; [|auto].
  eapply Forall_impl; [exact Hbefore|].
  intros ev Hq. apply before_simulation_quiet in Hq. tauto.
Qed.

(** C10.  A run started by [run_algorithm] records no echo, no highlighted
    source and no pickle, whatever its arguments; when it completes, its
    result is the result of the one simulation it ran. *)
Theorem run_algorithm_discards_output (r : AlgorithmArgs) (st : state) :
  output (run_args_of r) = os_devnull os ∧
  print_algo (run_args_of r) = false ∧
  Forall (λ ev, prints ev = false ∧ persists ev = false)
    (events_since st (run_algorithm r st).2) ∧
  (∀ perf, (run_algorithm r st).1 = Ok perf →
     ∃ algo, perf = TradingAlgorithm_run algo ∧
             RunAlgorithm algo ∈ events_since st (run_algorithm r st).2).
Proof.
  split; [reflexivity|]. split; [reflexivity|].
  destruct (load_extensions_facts (ra_default_extension r) (ra_extensions r)
              (ra_strict_extensions r) (ra_environ r) false st)
    as (new1 & Ht1 & _ & Hq1 & _).
  cbn zeta in *.
  unfold run_algorithm, bind.
  destruct (load_extensions (ra_default_extension r) (ra_extensions r)
              (ra_strict_extensions r) (ra_environ r) false st)
    as [[[]|e] st1]; cbn in *.
  2: { rewrite (events_since_app _ _ _ Ht1). split; [exact Hq1 | discriminate]. }
  destruct (_run_path (run_args_of r) st1) as (res & st' & E & Hp).
  rewrite E. cbn.
  pose proof (run_path_anatomy _ _ _ _ Hp) as Ha. cbn zeta in Ha.
  assert (Hquiet : ∀ ev, before_simulation (run_args_of r) ev →
                         prints ev = false ∧ persists ev = false).
  { intros ev Hev. apply before_simulation_quiet in Hev as (_ & Hpers & Hpr).
    split; [|exact Hpers].
    destruct (prints ev); [|reflexivity]. symmetry. apply Hpr. reflexivity. }
  destruct res as [perf|e].
  - destruct Ha as (algo & before & out & -> & Hev & Hbefore & _ & Hnull & _).
    specialize (Hnull eq_refl). subst out.
    assert (Ht : trace st' = trace st ++ new1 ++ before ++ [RunAlgorithm algo]).
    { rewrite Hev, Ht1. rewrite <- !app_assoc. reflexivity. }
    rewrite (events_since_app _ _ _ Ht). split.
    + apply Forall_app. split; [exact Hq1|].
      apply Forall_app. split.
      * eapply Forall_impl; [exact Hbefore | exact Hquiet].
      * repeat constructor.
    + intros perf [= <-]. exists algo. split; [reflexivity|].
      rewrite !elem_of_app. right. right. apply elem_of_cons. left. reflexivity.
  - destruct Ha as [(new2 & Ht2 & Hq2) _].
    assert (Ht : trace st' = trace st ++ new1 ++ new2).
    { rewrite Ht2, Ht1. rewrite <- !app_assoc. reflexivity. }
    rewrite (events_since_app _ _ _ Ht). split; [|discriminate].
    apply Forall_app. split; [exact Hq1|].
    eapply Forall_impl; [exact Hq2 | exact Hquiet].
Qed.

End Claims.

(** ** More on [load_extensions] *)

Section ExtensionOrder.
Context `{Collaborators}.

Lemma load_extensions_ensured default exts strict environ reload st :
  load_extensions default exts strict environ reload st =
  load_loop (extension_list default environ exts) strict reload
    (ensured default environ st).
Proof.
  unfold load_extensions, extension_list, ensured. destruct default; reflexivity.
Qed.

Lemma ensured_trace default environ st :
  trace (ensured default environ st) =
  trace st ++ (if default then [EnsureFile (default_extension environ)] else []).
Proof.
  unfold ensured. destruct default; cbn; [reflexivity|].
  symmetry. apply app_nil_r.
Qed.

Lemma ensured_loaded default environ st :
  _loaded_extensions (ensured default environ st) = _loaded_extensions st.
Proof. unfold ensured. destruct default; reflexivity. Qed.

Lemma attempted_app (l1 l2 : list event) :
  attempted (l1 ++ l2) = attempted l1 ++ attempted l2.
Proof. apply omap_app. Qed.

Lemma attempted_cons_load (ext : string) (r : option exn) (tr : list event) :
  attempted (load_event ext r :: tr) = ext :: attempted tr.
Proof.
  unfold attempted. cbn. rewrite load_result_load_event. reflexivity.
Qed.

(** The identifiers are loaded in the order of the list. *)
Lemma loads_attempted strict reload exts st r st' new :
  loads strict reload exts st r st' new →
  attempted new `sublist_of` exts.
Proof.
  induction 1 as [st | ext rest st r st' new Hs _ IH | ext rest st w e Hs Es Eo
                 | ext rest st w e r st' new Hs Es Ex Eo _ IH
                 | ext rest st w r st' new Hs Eo _ IH];
    rewrite ?attempted_cons_load.
  - constructor.
  - apply sublist_cons. exact IH.
  - apply sublist_skip. apply sublist_nil_l.
  - apply sublist_skip. exact IH.
  - apply sublist_skip. exact IH.
Qed.

(** With [reload] nothing is skipped: the loop goes through the list from
    its start, and through all of it when it returns. *)
Lemma loads_reload_all strict exts st r st' new :
  loads strict true exts st r st' new →
  attempted new `prefix_of` exts ∧ (r = Ok tt → attempted new = exts).
Proof.
  induction 1 as [st | ext rest st r st' new Hs _ IH | ext rest st w e Hs Es Eo
                 | ext rest st w e r st' new Hs Es Ex Eo _ IH
                 | ext rest st w r st' new Hs Eo _ IH];
    rewrite ?attempted_cons_load.
  - split; [apply prefix_nil | reflexivity].
  - destruct Hs as [_ Hr]. discriminate.
  - split; [apply prefix_cons, prefix_nil | discriminate].
  - destruct IH as [Hp Heq]. cbn.
    split; [apply prefix_cons; exact Hp | intros Hr; f_equal; auto].
  - destruct IH as [Hp Heq].
    split; [apply prefix_cons; exact Hp | intros Hr; f_equal; auto].
Qed.

(** The events of a call: the file of the default extension first, when
    asked for, then the loads and warnings of the loop. *)
Lemma load_extensions_events default exts strict environ reload st :
  ∃ new,
    loads strict reload (extension_list default environ exts)
      (ensured default environ st)
      (load_extensions default exts strict environ reload st).1
      (load_extensions default exts strict environ reload st).2 new ∧
    events_since st (load_extensions default exts strict environ reload st).2 =
    (if default then [EnsureFile (default_extension environ)] else []) ++ new.
Proof.
  rewrite load_extensions_ensured.
  destruct (load_loop_loads strict reload (extension_list default environ exts)
              (ensured default environ st)) as [new Hloads].
  exists new. split; [exact Hloads|].
  apply events_since_app.
  destruct (loads_trace _ _ _ _ _ _ _ Hloads) as [-> _].
  rewrite ensured_trace. symmetry. apply app_assoc.
Qed.

(** X1.  After any call the loaded set is the set before the call
    together with the identifiers loaded with success during the call:
    nothing is ever taken out of it. *)
Theorem loaded_set_grows_by_successes default exts strict environ reload st :
  let st' := (load_extensions default exts strict environ reload st).2 in
  _loaded_extensions st ⊆ _loaded_extensions st' ∧
  ∀ x, x ∈ _loaded_extensions st' ↔
       x ∈ _loaded_extensions st ∨ 1 ≤ successes x (events_since st st').
Proof.
  intros st'.
  destruct (load_extensions_facts default exts strict environ reload st)
    as (new & Ht & _ & _ & Hl & _).
  cbn zeta in *. fold st' in Ht, Hl.
  rewrite (events_since_app _ _ _ Ht).
  split; [|exact Hl].
  intros x Hx. apply Hl. left. exact Hx.
Qed.

(** X2.  A call first makes sure of the file of the default extension,
    when [default] is set and only then, and after that records loads and
    warnings only; the identifiers are loaded in the order of the list,
    the default extension ahead of the listed ones. *)
Theorem extensions_loaded_in_order default exts strict environ reload st :
  ∃ new,
    events_since st (load_extensions default exts strict environ reload st).2 =
    (if default then [EnsureFile (default_extension environ)] else []) ++ new ∧
    Forall (λ ev, is_Some (load_result ev) ∨ ∃ msg, ev = Warn msg) new ∧
    attempted new `sublist_of`
      (if default then default_extension environ :: exts else exts).
Proof.
  destruct (load_extensions_events default exts strict environ reload st)
    as (new & Hloads & Hev).
  exists new. split; [exact Hev|]. split.
  - exact (loads_events _ _ _ _ _ _ _ Hloads).
  - exact (loads_attempted _ _ _ _ _ _ _ Hloads).
Qed.

(** X3.  With [reload=True] nothing is skipped, whether it is in the
    loaded set or not: the identifiers whose script was executed or whose
    import was asked for are an initial part of the list, once for each
    time they are listed and in that order, and they are the whole list
    when the call returns. *)
Theorem reload_loads_every_identifier default exts strict environ st :
  let r := (load_extensions default exts strict environ true st).1 in
  let events :=
    events_since st (load_extensions default exts strict environ true st).2 in
  let listed := if default then default_extension environ :: exts else exts in
  attempted events `prefix_of` listed ∧
  (r = Ok tt → attempted events = listed).
Proof.
  cbn zeta.
  destruct (load_extensions_events default exts strict environ true st)
    as (new & Hloads & ->).
  assert (Hpre : attempted
            ((if default then [EnsureFile (default_extension environ)] else [])
             ++ new) = attempted new)
    by (rewrite attempted_app; destruct default; reflexivity).
  rewrite Hpre. exact (loads_reload_all _ _ _ _ _ _ Hloads).
Qed.

End ExtensionOrder.

(** ** Idempotence and the dispatch on [.py] *)

Section ExtensionIdempotence.
Context `{Collaborators}.

(** A loop in which no load raised returns, with every identifier of the
    list in the loaded set. *)
Lemma loads_clean strict exts st r st' new :
  loads strict false exts st r st' new →
  Forall (λ ev, is_failed_load ev = false) new →
  r = Ok tt ∧ ∀ x, x ∈ exts → x ∈ _loaded_extensions st'.
Proof.
  induction 1 as [st | ext rest st r st' new Hs Hl IH | ext rest st w e Hs Es Eo
                 | ext rest st w e r st' new Hs Es Ex Eo Hl IH
                 | ext rest st w r st' new Hs Eo Hl IH]; intros Hclean.
  - split; [reflexivity|]. intros x Hx. apply elem_of_nil in Hx as [].
  - destruct (IH Hclean) as [-> Hall]. split; [reflexivity|].
    intros x Hx. apply elem_of_cons in Hx as [->|Hx]; [|auto].
    apply (loads_loaded _ _ _ _ _ _ _ Hl). left. apply Hs.
  - apply Forall_cons in Hclean as [Hf _]. unfold is_failed_load in Hf.
    rewrite load_result_load_event in Hf. discriminate.
  - apply Forall_cons in Hclean as [Hf _]. unfold is_failed_load in Hf.
    rewrite load_result_load_event in Hf. discriminate.
  - apply Forall_cons in Hclean as [_ Hclean].
    destruct (IH Hclean) as [-> Hall]. split; [reflexivity|].
    intros x Hx. apply elem_of_cons in Hx as [->|Hx]; [|auto].
    apply (loads_loaded _ _ _ _ _ _ _ Hl). left. cbn.
    apply elem_of_union. left. apply elem_of_singleton. reflexivity.
Qed.

(** A loop over loaded identifiers does nothing. *)
Lemma load_loop_all_loaded strict exts st :
  (∀ x, x ∈ exts → x ∈ _loaded_extensions st) →
  load_loop exts strict false st = (Ok tt, st).
Proof.
  induction exts as [|ext rest IH]; intros Hall; [reflexivity|].
  rewrite load_loop_skip.
  - apply IH. intros x Hx. apply Hall. apply elem_of_cons. right. exact Hx.
  - split; [|reflexivity]. apply Hall. apply elem_of_cons. left. reflexivity.
Qed.

(** X4.  After a call with [reload=False] in which no load raised, a
    second call with the same arguments loads nothing: it returns, records
    nothing but the check of the default extension file, and leaves the
    loaded set as it is. *)
Theorem second_call_loads_nothing default exts strict environ st :
  let st1 := (load_extensions default exts strict environ false st).2 in
  Forall (λ ev, is_failed_load ev = false) (events_since st st1) →
  load_extensions default exts strict environ false st1 =
    (Ok tt, ensured default environ st1) ∧
  events_since st1 (ensured default environ st1) =
    (if default then [EnsureFile (default_extension environ)] else []) ∧
  _loaded_extensions (ensured default environ st1) = _loaded_extensions st1.
Proof.
  intros st1 Hclean.
  destruct (load_extensions_events default exts strict environ false st)
    as (new & Hloads & Hev).
  fold st1 in Hloads, Hev. rewrite Hev in Hclean.
  apply Forall_app in Hclean as [_ Hclean].
  destruct (loads_clean _ _ _ _ _ _ Hloads Hclean) as [_ Hall].
  split; [|split].
  - rewrite load_extensions_ensured. apply load_loop_all_loaded.
    intros x Hx. rewrite ensured_loaded. apply Hall. exact Hx.
  - apply events_since_app. apply ensured_trace.
  - apply ensured_loaded.
Qed.

(** The spelling of [endswith]. *)
Lemma append_cons (c : ascii) (s1 s2 : string) :
  String c s1 +:+ s2 = String c (s1 +:+ s2).
Proof. reflexivity. Qed.

Lemma string_length_app (s1 s2 : string) :
  String.length (s1 +:+ s2) = String.length s1 + String.length s2.
Proof.
  induction s1 as [|c s1 IH]; [reflexivity|].
  change (S (String.length (s1 +:+ s2)) = S (String.length s1 + String.length s2)).
  rewrite IH. reflexivity.
Qed.

Lemma substring_all (s : string) : String.substring 0 (String.length s) s = s.
Proof.
  induction s as [|c s IH]; [reflexivity|].
  change (String c (String.substring 0 (String.length s) s) = String c s).
  rewrite IH. reflexivity.
Qed.

Lemma substring_skip (p s : string) (m : nat) :
  String.substring (String.length p) m (p +:+ s) = String.substring 0 m s.
Proof.
  induction p as [|c p IH]; [reflexivity|].
  rewrite append_cons. exact IH.
Qed.

Lemma substring_split (k m : nat) (s : string) :
  k + m = String.length s →
  s = String.substring 0 k s +:+ String.substring k m s.
Proof.
  revert s. induction k as [|k IH]; intros s Hl; cbn in Hl.
  - subst m. rewrite substring_all. destruct s; reflexivity.
  - destruct s as [|c s]; [discriminate|]. simpl in *.
    rewrite append_cons. f_equal. apply IH. lia.
Qed.

Lemma endswith_has_suffix (s suffix : string) :
  endswith s suffix = true ↔ has_suffix suffix s.
Proof.
  unfold endswith, has_suffix. split.
  - destruct (String.length suffix <=? String.length s) eqn:Hle; [|discriminate].
    apply Nat.leb_le in Hle. intros Heq. apply String.eqb_eq in Heq.
    exists (String.substring 0 (String.length s - String.length suffix) s).
    pose proof (substring_split (String.length s - String.length suffix)
                  (String.length suffix) s) as Hs.
    rewrite Heq in Hs. apply Hs. lia.
  - intros [p ->]. rewrite string_length_app.
    rewrite (proj2 (Nat.leb_le _ _)) by lia.
    replace (String.length p + String.length suffix - String.length suffix)
      with (String.length p) by lia.
    rewrite substring_skip, substring_all. apply String.eqb_refl.
Qed.

Lemma loads_dispatch strict reload exts st r st' new :
  loads strict reload exts st r st' new →
  Forall (λ ev, match ev with
                | ExecScript ext _ => endswith ext ".py" = true
                | ImportModule ext _ => endswith ext ".py" = false
                | _ => True
                end) new.
Proof.
  assert (Hev : ∀ ext res,
            match load_event ext res with
            | ExecScript x _ => endswith x ".py" = true
            | ImportModule x _ => endswith x ".py" = false
            | _ => True
            end).
  { intros ext res. unfold load_event.
    destruct (endswith ext ".py") eqn:E; exact E. }
  induction 1; repeat constructor; auto; apply Hev.
Qed.

(** X5.  An identifier is executed as a script exactly when it ends in
    [.py], and is imported as a module otherwise. *)
Theorem scripts_end_in_py default exts strict environ reload st :
  Forall (λ ev, match ev with
                | ExecScript ext _ => has_suffix ".py" ext
                | ImportModule ext _ => ¬ has_suffix ".py" ext
                | _ => True
                end)
    (events_since st (load_extensions default exts strict environ reload st).2).
Proof.
  destruct (load_extensions_events default exts strict environ reload st)
    as (new & Hloads & ->).
  apply Forall_app. split.
  - destruct default; repeat constructor.
  - eapply Forall_impl; [exact (loads_dispatch _ _ _ _ _ _ _ Hloads)|].
    intros [] Hev; cbn in *; auto.
    + apply endswith_has_suffix. exact Hev.
    + intros Hs. apply endswith_has_suffix in Hs. congruence.
Qed.

End ExtensionIdempotence.

(** ** More on the definitions *)

Section DefineLoop.
Context `{Collaborators}.

Lemma split_define_raise (assign : string) (e : exn) :
  split_define assign = Raise e → e = invalid_define assign.
Proof.
  unfold split_define.
  destruct (split assign "=" 2) as [|a [|b [|c l]]]; congruence.
Qed.

(** X6.  A definition is accepted, as [name] and [value], exactly when it
    is [name=value] with no further [=] in either part. *)
Theorem accepted_define_has_one_equals (assign name value : string) :
  split_define assign = Ok (name, value) ↔
  assign = name +:+ "=" +:+ value ∧
  count_char "=" name = 0 ∧ count_char "=" value = 0.
Proof.
  split.
  - intros Hok.
    assert (Hone : count_char "=" assign = 1)
      by (apply split_define_accepts; eauto).
    destruct (first_sep "=" assign) as (n & v & -> & Hn); [lia|].
    rewrite count_char_app in Hone. simpl in Hone.
    assert (Hv : count_char "=" v = 0) by lia.
    change (String "=" v) with ("=" +:+ v) in Hok.
    rewrite (split_define_one_equals n v Hn Hv) in Hok.
    injection Hok as -> ->. auto.
  - intros (-> & Hn & Hv). apply split_define_one_equals; assumption.
Qed.

Lemma eval_define_Ok shared name value ns st ns' st' :
  eval_define shared name value ns st = (Ok ns', st') →
  ∃ v, trace st' = trace st ++ [Eval value (Ok v)] ∧
       (shared = true → user_ns st' = ns').
Proof.
  unfold eval_define. destruct (py_eval value ns) as [ns1 [v|e]];
    unfold bind, modify, ret, raise; cbn;
    [|destruct (is_Exception e); discriminate].
  intros [= <- <-]. exists v.
  split; [destruct shared; reflexivity|]. intros ->. reflexivity.
Qed.

(** A loop that returns has evaluated every definition once, in order. *)
Lemma define_loop_evals shared defines ns st ns' st' :
  define_loop shared defines ns st = (Ok ns', st') →
  ∃ evals,
    trace st' = trace st ++ evals ∧
    Forall2 (λ assign ev, ∃ name value v,
               split_define assign = Ok (name, value) ∧
               ev = Eval value (Ok v)) defines evals.
Proof.
  revert ns st. induction defines as [|assign rest IH]; intros ns st; cbn.
  - intros [= <- <-]. exists []. split; [symmetry; apply app_nil_r | constructor].
  - destruct (split_define assign) as [[name value]|e] eqn:Es; [|discriminate].
    unfold bind.
    destruct (eval_define shared name value ns st) as [[ns1|e] s1] eqn:Ee;
      [|discriminate].
    intros Hrest.
    destruct (eval_define_Ok _ _ _ _ _ _ _ Ee) as (v & Ht1 & _).
    destruct (IH _ _ Hrest) as (evals & Ht & Hall).
    exists (Eval value (Ok v) :: evals). split.
    + rewrite Ht, Ht1. rewrite <- app_assoc. reflexivity.
    + constructor; [eauto | exact Hall].
Qed.

(** In the namespace of the interactive session, what the loop returns is
    what the session holds. *)
Lemma define_loop_shared defines ns st ns' st' :
  user_ns st = ns →
  define_loop true defines ns st = (Ok ns', st') →
  user_ns st' = ns'.
Proof.
  revert ns st. induction defines as [|assign rest IH]; intros ns st Hns; cbn.
  - intros [= <- <-]. exact Hns.
  - destruct (split_define assign) as [[name value]|e]; [|discriminate].
    unfold bind.
    destruct (eval_define true name value ns st) as [[ns1|e] s1] eqn:Ee;
      [|discriminate].
    destruct (eval_define_Ok _ _ _ _ _ _ _ Ee) as (v & _ & Hu).
    apply IH. apply Hu. reflexivity.
Qed.

(** X7.  A malformed definition is rejected when the loop comes to it,
    not before: the definitions ahead of it have each been evaluated by
    then, in order, and those after it are never evaluated. *)
Theorem malformed_define_rejected_in_turn (shared : bool)
    (pre post : list string) (bad : string)
    (ns0 ns_pre : gmap string Value) (st st_pre : state) :
  define_loop shared pre ns0 st = (Ok ns_pre, st_pre) →
  count_char "=" bad ≠ 1 →
  define_loop shared (pre ++ bad :: post) ns0 st
    = (Raise (invalid_define bad), st_pre) ∧
  ∃ evals,
    trace st_pre = trace st ++ evals ∧
    Forall2 (λ assign ev, ∃ name value v,
               split_define assign = Ok (name, value) ∧
               ev = Eval value (Ok v)) pre evals.
Proof.
  intros Hpre Hbad. split; [|exact (define_loop_evals _ _ _ _ _ _ Hpre)].
  rewrite define_loop_app, Hpre. cbn.
  destruct (split_define bad) as [p|e] eqn:Es.
  - exfalso. apply Hbad. apply split_define_accepts. eauto.
  - rewrite (split_define_raise _ _ Es). reflexivity.
Qed.

End DefineLoop.

(** ** The steps of [_run] *)

Section RunSteps.
Context `{Collaborators}.

Lemma run_step_refl (a : RunArgs) (st : state) : run_step a st st.
Proof. split; [apply extends_refl | split; reflexivity]. Qed.

Lemma run_step_trans (a : RunArgs) (s1 s2 s3 : state) :
  run_step a s1 s2 → run_step a s2 s3 → run_step a s1 s3.
Proof.
  intros (He1 & Hl1 & Hw1) (He2 & Hl2 & Hw2).
  split; [eapply extends_trans; eassumption | split; congruence].
Qed.

Lemma quiet_step_refl (a : RunArgs) (st : state) : quiet_step a st st.
Proof. split; [apply run_step_refl | reflexivity]. Qed.

Lemma quiet_step_trans (a : RunArgs) (s1 s2 s3 : state) :
  quiet_step a s1 s2 → quiet_step a s2 s3 → quiet_step a s1 s3.
Proof.
  intros [Hs1 Hu1] [Hs2 Hu2].
  split; [eapply run_step_trans; eassumption | congruence].
Qed.

Lemma quiet_step_emit (a : RunArgs) (ev : event) (st : state) :
  run_event a ev → quiet_step a st (emit ev st).
Proof.
  intros Hev. split; [split|]; [apply extends_emit; exact Hev | split |];
    reflexivity.
Qed.

Lemma load_benchmark_step (a : RunArgs) (st : state) :
  ∃ st', load_benchmark a st = (Ok (benchmark_of a), st') ∧ quiet_step a st st'.
Proof.
  unfold load_benchmark, benchmark_of.
  destruct (benchmark_returns a) as [b|] eqn:E.
  - exists st. split; [reflexivity | apply quiet_step_refl].
  - eexists. split; [reflexivity|]. apply quiet_step_emit. constructor. exact E.
Qed.

Lemma eval_define_step (a : RunArgs) shared assign name value ns st :
  algotext a ≠ None → assign ∈ defines a →
  split_define assign = Ok (name, value) →
  run_step a st (eval_define shared name value ns st).2 ∧
  (shared = false → user_ns (eval_define shared name value ns st).2 = user_ns st).
Proof.
  intros Ht Hin Hs. unfold eval_define.
  destruct (py_eval value ns) as [ns' [v|e]]; [|destruct (is_Exception e)];
    unfold bind, modify, ret, raise; cbn;
    (split; [split; [|split; destruct shared; reflexivity]
            | intros ->; reflexivity]).
  - exists [Eval value (Ok v)].
    split; [destruct shared; reflexivity|].
    repeat constructor. eapply re_eval; eassumption.
  - exists [Eval value (Raise e)].
    split; [destruct shared; reflexivity|].
    repeat constructor. eapply re_eval; eassumption.
  - exists [Eval value (Raise e)].
    split; [destruct shared; reflexivity|].
    repeat constructor. eapply re_eval; eassumption.
Qed.

Lemma define_loop_step (a : RunArgs) shared ds ns st :
  algotext a ≠ None → (∀ x, x ∈ ds → x ∈ defines a) →
  run_step a st (define_loop shared ds ns st).2 ∧
  (shared = false → user_ns (define_loop shared ds ns st).2 = user_ns st).
Proof.
  intros Ht. revert ns st.
  induction ds as [|assign rest IH]; intros ns st Hin; cbn.
  - split; [apply run_step_refl | reflexivity].
  - destruct (split_define assign) as [[name value]|e] eqn:Es; cbn.
    + unfold bind.
      assert (Ha : assign ∈ defines a)
        by (apply Hin; apply elem_of_cons; left; reflexivity).
      pose proof (eval_define_step a shared assign name value ns st Ht Ha Es)
        as [Hstep Hu].
      destruct (eval_define shared name value ns st) as [[ns'|e] st']; cbn in *.
      * destruct (IH ns' st') as [Hstep' Hu'].
        { intros x Hx. apply Hin. apply elem_of_cons. right. exact Hx. }
        split; [eapply run_step_trans; eassumption|].
        intros Hs. rewrite Hu', Hu by exact Hs. reflexivity.
      * auto.
    + split; [apply run_step_refl | reflexivity].
Qed.

Lemma build_namespace_step (a : RunArgs) (st : state) :
  run_step a st (build_namespace a st).2 ∧
  (algotext a = None ∨ local_namespace a = false →
   user_ns (build_namespace a st).2 = user_ns st).
Proof.
  unfold build_namespace. destruct (algotext a) as [text|] eqn:Et.
  - unfold bind.
    assert (Hns : ∃ ns0, (if local_namespace a then gets user_ns else ret ∅) st
                         = (Ok ns0, st))
      by (destruct (local_namespace a); eexists; reflexivity).
    destruct Hns as [ns0 ->].
    destruct (define_loop_step a (local_namespace a) (defines a) ns0 st)
      as [Hstep Hu]; [congruence | auto |].
    destruct (define_loop (local_namespace a) (defines a) ns0 st)
      as [[ns|e] st']; cbn in *;
      (split; [exact Hstep | intros [?|Hl]; [discriminate | auto]]).
  - destruct (defines a) eqn:Ed; [destruct (algofile a) as [f|] eqn:Ef|]; cbn.
    + split; [|reflexivity]. apply quiet_step_emit. constructor; assumption.
    + split; [apply run_step_refl | reflexivity].
    + split; [apply run_step_refl | reflexivity].
Qed.

Lemma echo_algo_step (a : RunArgs) (text : option string) (st : state) :
  ∃ st', echo_algo a text st = (Ok tt, st') ∧ quiet_step a st st'.
Proof.
  unfold echo_algo. destruct (print_algo a) eqn:Ep;
    [destruct PYGMENTS eqn:Eg|]; eexists; (split; [reflexivity|]).
  - apply quiet_step_emit. constructor; assumption.
  - apply quiet_step_emit. apply re_echo_source; assumption.
  - apply quiet_step_refl.
Qed.

Lemma open_data_step (a : RunArgs) (st : state) :
  ∃ st',
    open_data a (calendar_of a) st =
      (Ok (data_portal_of a, pricing_loader_of a), st') ∧
    quiet_step a st st' ∧
    BundlesLoad (bundle a) (bundle_timestamp a) ∈ events_since st st'.
Proof.
  unfold open_data, data_portal_of, pricing_loader_of, bundle_data_of,
    bind, modify, ret.
  destruct (custom_data_portal a) as [portal|] eqn:Ec; cbn;
    eexists; (split; [reflexivity|]).
  - split.
    + eapply quiet_step_trans; apply quiet_step_emit; constructor.
    + erewrite events_since_app
        by (cbn; rewrite <- app_assoc; reflexivity).
      apply elem_of_cons. left. reflexivity.
  - split.
    + eapply quiet_step_trans; [eapply quiet_step_trans|];
        apply quiet_step_emit; constructor. exact Ec.
    + erewrite events_since_app
        by (cbn; rewrite <- !app_assoc; reflexivity).
      apply elem_of_cons. left. reflexivity.
Qed.

Lemma resolve_metrics_set_step (a : RunArgs) (st : state) :
  quiet_step a st (resolve_metrics_set a st).2.
Proof.
  unfold resolve_metrics_set. destruct (metrics_set a) as [name|m] eqn:Em.
  - unfold as_RunAlgoError, metrics_load, registry_load, bind, modify. cbn.
    destruct (metrics_registry (world st) !! name); cbn;
      apply quiet_step_emit; constructor; exact Em.
  - apply quiet_step_refl.
Qed.

Lemma resolve_blotter_step (a : RunArgs) (st : state) :
  quiet_step a st (resolve_blotter a st).2.
Proof.
  unfold resolve_blotter. destruct (blotter a) as [name|m] eqn:Em.
  - unfold as_RunAlgoError, extensions_load_Blotter, registry_load, bind,
      modify. cbn.
    destruct (blotter_registry (world st) !! name); cbn;
      apply quiet_step_emit; constructor; exact Em.
  - apply quiet_step_refl.
Qed.

Lemma write_output_step (a : RunArgs) (perf : Perf) (st : state) :
  quiet_step a st (write_output a perf st).2 ∧
  count runs_simulation (events_since st (write_output a perf st).2) = 0 ∧
  count persists (events_since st (write_output a perf st).2) ≤ 1.
Proof.
  unfold write_output.
  destruct (String.eqb (output a) "-") eqn:Edash.
  - apply String.eqb_eq in Edash. cbn.
    split; [apply quiet_step_emit; constructor; exact Edash|].
    rewrite (events_since_app _ _ [Echo (Some (perf_str perf))]) by reflexivity.
    cbn. lia.
  - apply String.eqb_neq in Edash.
    destruct (String.eqb (output a) (os_devnull os)) eqn:Enull; cbn.
    + split; [apply quiet_step_refl|].
      rewrite (events_since_app _ _ []) by (symmetry; apply app_nil_r).
      cbn. lia.
    + apply String.eqb_neq in Enull.
      split; [apply quiet_step_emit; constructor; assumption|].
      rewrite (events_since_app _ _ [ToPickle perf (output a)]) by reflexivity.
      cbn. lia.
Qed.

End RunSteps.

(** ** [_run] from end to end *)

Section RunWhole.
Context `{Collaborators}.

Lemma load_benchmark_eq (a : RunArgs) st b s1 :
  load_benchmark a st = (Ok b, s1) → b = benchmark_of a ∧ quiet_step a st s1.
Proof.
  intros E. destruct (load_benchmark_step a st) as (s1' & E' & Hq).
  rewrite E in E'. injection E' as -> <-. auto.
Qed.

Lemma build_namespace_eq (a : RunArgs) s1 r s2 :
  build_namespace a s1 = (r, s2) →
  run_step a s1 s2 ∧
  (algotext a = None ∨ local_namespace a = false → user_ns s2 = user_ns s1).
Proof.
  intros E. pose proof (build_namespace_step a s1) as Hs.
  rewrite E in Hs. exact Hs.
Qed.

(** The source text is [algotext], or else what [algofile] holds. *)
Lemma build_namespace_text (a : RunArgs) s1 ns text s2 :
  build_namespace a s1 = (Ok (ns, text), s2) →
  text = match algotext a with
         | Some t => Some t
         | None => file_read <$> algofile a
         end.
Proof.
  unfold build_namespace. destruct (algotext a) as [t|].
  - unfold bind.
    destruct ((if local_namespace a then gets user_ns else ret ∅) s1)
      as [[ns0|e] s]; [|discriminate].
    destruct (define_loop (local_namespace a) (defines a) ns0 s)
      as [[ns1|e] s']; [|discriminate].
    intros [= _ <- _]. reflexivity.
  - destruct (defines a); [|discriminate].
    destruct (algofile a) as [f|]; cbn; intros [= _ <- _]; reflexivity.
Qed.

(** In the namespace of the interactive session, the namespace built is
    the one the session holds afterwards. *)
Lemma build_namespace_shared (a : RunArgs) s1 ns text s2 :
  algotext a ≠ None → local_namespace a = true →
  build_namespace a s1 = (Ok (ns, text), s2) → user_ns s2 = ns.
Proof.
  intros Ht Hl. unfold build_namespace.
  destruct (algotext a) as [t|]; [|contradiction]. rewrite Hl.
  unfold bind, gets.
  destruct (define_loop true (defines a) (user_ns s1) s1)
    as [[ns1|e] s'] eqn:Ed; [|discriminate].
  intros [= <- _ <-].
  exact (define_loop_shared _ _ _ _ _ eq_refl Ed).
Qed.

Lemma echo_algo_eq (a : RunArgs) text s2 s3 :
  echo_algo a text s2 = (Ok tt, s3) → quiet_step a s2 s3.
Proof.
  intros E. destruct (echo_algo_step a text s2) as (s3' & E' & Hq).
  rewrite E in E'. injection E' as <-. exact Hq.
Qed.

Lemma open_data_eq (a : RunArgs) s3 data loader s4 :
  open_data a (calendar_of a) s3 = (Ok (data, loader), s4) →
  data = data_portal_of a ∧ loader = pricing_loader_of a ∧
  quiet_step a s3 s4 ∧
  BundlesLoad (bundle a) (bundle_timestamp a) ∈ events_since s3 s4.
Proof.
  intros E. destruct (open_data_step a s3) as (s4' & E' & Hq & Hb).
  rewrite E in E'. injection E' as -> -> <-. auto.
Qed.

Lemma resolve_metrics_set_eq (a : RunArgs) s4 r s5 :
  resolve_metrics_set a s4 = (r, s5) → quiet_step a s4 s5.
Proof.
  intros E. pose proof (resolve_metrics_set_step a s4) as Hs.
  rewrite E in Hs. exact Hs.
Qed.

Lemma resolve_blotter_eq (a : RunArgs) s5 r s6 :
  resolve_blotter a s5 = (r, s6) → quiet_step a s5 s6.
Proof.
  intros E. pose proof (resolve_blotter_step a s5) as Hs.
  rewrite E in Hs. exact Hs.
Qed.

Lemma write_output_eq (a : RunArgs) perf s s7 :
  write_output a perf s = (Ok tt, s7) → quiet_step a s s7.
Proof.
  intros E. pose proof (write_output_step a perf s) as [Hs _].
  rewrite E in Hs. exact Hs.
Qed.

Lemma elem_of_events_since_later (x : event) (P Q : event → Prop) st s s' :
  extends P st s → extends Q s s' →
  x ∈ events_since s s' → x ∈ events_since st s'.
Proof.
  intros (n1 & H1 & _) (n2 & H2 & _) Hx.
  rewrite (events_since_app _ _ _ H2) in Hx.
  rewrite (events_since_app st s' (n1 ++ n2)).
  - apply elem_of_app. right. exact Hx.
  - rewrite H2, H1. symmetry. apply app_assoc.
Qed.

Lemma elem_of_events_since_earlier (x : event) (P Q : event → Prop) st s s' :
  extends P st s → extends Q s s' →
  x ∈ events_since st s → x ∈ events_since st s'.
Proof.
  intros (n1 & H1 & _) (n2 & H2 & _) Hx.
  rewrite (events_since_app _ _ _ H1) in Hx.
  rewrite (events_since_app st s' (n1 ++ n2)).
  - apply elem_of_app. left. exact Hx.
  - rewrite H2, H1. symmetry. apply app_assoc.
Qed.

(** Each path of [_run] is a chain of steps: a quiet one to the
    namespace stage, that stage, and a quiet one to the end; a path that
    completes has run the simulation on what the stages built. *)
Lemma run_path_steps (a : RunArgs) (st : state) r st' :
  run_path a st r st' →
  ∃ s1 rn s2,
    load_benchmark a st = (Ok (benchmark_of a), s1) ∧
    build_namespace a s1 = (rn, s2) ∧
    quiet_step a st s1 ∧ run_step a s1 s2 ∧ quiet_step a s2 st' ∧
    match r with
    | Raise _ => True
    | Ok perf =>
        ∃ ns text m bl,
          rn = Ok (ns, text) ∧
          resolved "metrics set" (metrics_registry (world st)) (metrics_set a)
            = Ok m ∧
          resolved "blotter" (blotter_registry (world st)) (blotter a)
            = Ok bl ∧
          let algo :=
            new_algorithm a (benchmark_of a) ns text (calendar_of a)
              (data_portal_of a) (pricing_loader_of a) m bl in
          perf = TradingAlgorithm_run algo ∧
          RunAlgorithm algo ∈ events_since s2 st' ∧
          BundlesLoad (bundle a) (bundle_timestamp a) ∈ events_since s2 st'
    end.
Proof.
  intros Hp.
  destruct Hp as [b s1 e s2 E1 E2
                 | b s1 ns text s2 s3 E1 E2 E3 Hd
                 | b s1 ns text s2 s3 data loader s4 e s5 E1 E2 E3 Hd E4 E5
                 | b s1 ns text s2 s3 data loader s4 m s5 e s6
                     E1 E2 E3 Hd E4 E5 E6
                 | b s1 ns text s2 s3 data loader s4 m s5 bl s6 algo s7
                     E1 E2 E3 Hd E4 E5 E6 Ealgo E7];
    destruct (load_benchmark_eq a st b s1 E1) as [-> Hq1];
    destruct (build_namespace_eq a s1 _ s2 E2) as [Hn _];
    eexists s1, _, s2; (split; [exact E1|]); (split; [exact E2|]);
    (split; [exact Hq1|]); (split; [exact Hn|]).
  - split; [apply quiet_step_refl | exact I].
  - split; [exact (echo_algo_eq a text s2 s3 E3) | exact I].
  - destruct (open_data_eq a s3 _ _ s4 E4) as (_ & _ & Hq4 & _).
    split; [|exact I].
    eapply quiet_step_trans; [exact (echo_algo_eq a text s2 s3 E3)|].
    eapply quiet_step_trans; [exact Hq4|].
    exact (resolve_metrics_set_eq a s4 _ s5 E5).
  - destruct (open_data_eq a s3 _ _ s4 E4) as (_ & _ & Hq4 & _).
    split; [|exact I].
    eapply quiet_step_trans; [exact (echo_algo_eq a text s2 s3 E3)|].
    eapply quiet_step_trans; [exact Hq4|].
    eapply quiet_step_trans; [exact (resolve_metrics_set_eq a s4 _ s5 E5)|].
    exact (resolve_blotter_eq a s5 _ s6 E6).
  - destruct (open_data_eq a s3 _ _ s4 E4) as (-> & -> & Hq4 & Hb).
    pose proof (echo_algo_eq a text s2 s3 E3) as Hq3.
    pose proof (resolve_metrics_set_eq a s4 _ s5 E5) as Hq5.
    pose proof (resolve_blotter_eq a s5 _ s6 E6) as Hq6.
    pose proof (write_output_eq a _ _ s7 E7) as Hq7.
    assert (Hq8 : quiet_step a s6 (emit (RunAlgorithm algo) s6))
      by (apply quiet_step_emit; constructor).
    assert (Hq26 : quiet_step a s2 s6).
    { eapply quiet_step_trans; [exact Hq3|].
      eapply quiet_step_trans; [exact Hq4|].
      eapply quiet_step_trans; [exact Hq5 | exact Hq6]. }
    assert (Hq67 : quiet_step a s6 s7)
      by (eapply quiet_step_trans; eassumption).
    split; [eapply quiet_step_trans; eassumption|].
    destruct (reach_validation_echo a st _ s1 _ s2 text s3 E1 E2 E3)
      as (_ & Hw3 & _).
    destruct (reach_metrics a s3 _ _ s4 _ s5 E4 E5) as (_ & Hw5 & _ & Hm).
    destruct (reach_blotter a s5 _ s6 E6) as (_ & _ & Hbl).
    exists ns, text, m, bl.
    split; [reflexivity|].
    split; [rewrite <- Hw3; symmetry; exact Hm|].
    split; [rewrite <- Hw3, <- Hw5; symmetry; exact Hbl|].
    cbn zeta. rewrite <- Ealgo.
    split; [reflexivity|]. split.
    + eapply elem_of_events_since_later;
        [exact (proj1 (proj1 Hq26)) | exact (proj1 (proj1 Hq67)) |].
      eapply elem_of_events_since_earlier;
        [exact (proj1 (proj1 Hq8)) | exact (proj1 (proj1 Hq7)) |].
      rewrite (events_since_app _ _ [RunAlgorithm algo]) by reflexivity.
      apply elem_of_cons. left. reflexivity.
    + eapply elem_of_events_since_later;
        [exact (proj1 (proj1 Hq3)) | |].
      * eapply extends_trans; [exact (proj1 (proj1 Hq4))|].
        eapply extends_trans; [exact (proj1 (proj1 Hq5))|].
        eapply extends_trans; [exact (proj1 (proj1 Hq6))|].
        exact (proj1 (proj1 Hq67)).
      * eapply elem_of_events_since_earlier;
          [exact (proj1 (proj1 Hq4)) | | exact Hb].
        eapply extends_trans; [exact (proj1 (proj1 Hq5))|].
        eapply extends_trans; [exact (proj1 (proj1 Hq6))|].
        exact (proj1 (proj1 Hq67)).
Qed.

End RunWhole.

(** ** What a run records, keeps and builds *)

Section RunBehaviour.
Context `{Collaborators}.

Lemma count_none (p : event → bool) (tr : list event) :
  Forall (λ ev, p ev = false) tr → count p tr = 0.
Proof.
  induction 1 as [|ev tr Hev _ IH]; cbn; [reflexivity|].
  rewrite Hev, IH. reflexivity.
Qed.

(** X8.  Every event of a run is one of those of [run_event], recorded
    under its condition: market data is read only when no benchmark
    returns were given, an expression is evaluated only when it is the
    value of one of the defines and source text was given, the file is
    read only without source text and defines, the source is echoed only
    on request, a data portal is built only when none was given, a
    registry is consulted only for a name, and the result is echoed only
    to [-] and pickled only to a destination that is neither [-] nor the
    null device. *)
Theorem run_records_only_its_events (a : RunArgs) (st : state) :
  Forall (run_event a) (events_since st (_run a st).2).
Proof.
  destruct (_run_path a st) as (r & st' & E & Hp). rewrite E. cbn.
  destruct (run_path_steps a st r st' Hp)
    as (s1 & rn & s2 & _ & _ & [[H1 _] _] & [H2 _] & [[H3 _] _] & _).
  apply extends_events_since.
  eapply extends_trans; [exact H1|]. eapply extends_trans; eassumption.
Qed.

(** X10.  With source text and [local_namespace], the namespace given to
    the simulation is the namespace of the interactive session: after a
    completed run the session holds exactly the bindings the simulation
    was given. *)
Theorem interactive_namespace_is_shared (a : RunArgs) (st st' : state)
    (perf : Perf) :
  algotext a ≠ None → local_namespace a = true →
  _run a st = (Ok perf, st') →
  ∃ algo,
    perf = TradingAlgorithm_run algo ∧
    RunAlgorithm algo ∈ events_since st st' ∧
    ta_namespace algo = user_ns st'.
Proof.
  intros Ht Hl E.
  destruct (_run_path a st) as (r & st'' & E' & Hp).
  rewrite E in E'. injection E' as <- <-.
  destruct (run_path_steps a st _ st' Hp)
    as (s1 & rn & s2 & _ & E2 & [[H1 _] _] & [H2 _] & [[H3 _] Hu3]
        & ns & text & m & bl & -> & _ & _ & Hperf & Hrun & _).
  cbn zeta in *. eexists. split; [exact Hperf|]. split.
  - eapply elem_of_events_since_later; [|exact H3|exact Hrun].
    eapply extends_trans; eassumption.
  - cbn. rewrite Hu3. symmetry.
    exact (build_namespace_shared a s1 ns text s2 Ht Hl E2).
Qed.

(** X11.  A run calls the simulation at most once, and exactly once when
    it completes; it writes a pickle at most once, and never without
    having called the simulation. *)
Theorem simulation_runs_once (a : RunArgs) (st : state) :
  let events := events_since st (_run a st).2 in
  count runs_simulation events ≤ 1 ∧
  count persists events ≤ count runs_simulation events ∧
  (∀ perf, (_run a st).1 = Ok perf → count runs_simulation events = 1).
Proof.
  destruct (_run_path a st) as (r & st' & E & Hp). rewrite E. cbn.
  pose proof (run_path_anatomy a st r st' Hp) as Ha. cbn zeta in Ha.
  assert (Hquiet : ∀ tr, Forall (before_simulation a) tr →
                         count runs_simulation tr = 0 ∧ count persists tr = 0).
  { intros tr Htr. split; apply count_none; (eapply Forall_impl; [exact Htr|]);
      intros ev Hev; apply before_simulation_quiet in Hev; tauto. }
  destruct r as [perf|e].
  - destruct Ha as (algo & before & out & _ & Ht & Hbefore & Hdash & Hnull
                    & Hfile & _).
    rewrite (events_since_app _ _ _ Ht).
    destruct (Hquiet before Hbefore) as [Hr Hp'].
    rewrite !count_app, Hr, Hp'. cbn.
    destruct (decide (output a = "-")) as [Hd|Hd];
      [rewrite (Hdash Hd); cbn; repeat split; intros; lia|].
    destruct (decide (output a = os_devnull os)) as [Hn|Hn];
      [rewrite (Hnull Hn); cbn; repeat split; intros; lia|].
    rewrite (Hfile Hd Hn). cbn. repeat split; intros; lia.
  - destruct Ha as [(new & Ht & Hnew) _].
    rewrite (events_since_app _ _ _ Ht).
    destruct (Hquiet new Hnew) as [-> ->].
    split; [lia|]. split; [lia|]. intros perf Hperf. discriminate Hperf.
Qed.

Lemma _run_completed (a : RunArgs) (st st' : state) (perf : Perf) :
  _run a st = (Ok perf, st') →
  ∃ ns text m bl,
    (build_namespace a (load_benchmark a st).2).1 = Ok (ns, text) ∧
    text = match algotext a with
           | Some t => Some t
           | None => file_read <$> algofile a
           end ∧
    resolved "metrics set" (metrics_registry (world st)) (metrics_set a)
      = Ok m ∧
    resolved "blotter" (blotter_registry (world st)) (blotter a) = Ok bl ∧
    let algo :=
      new_algorithm a (benchmark_of a) ns text (calendar_of a)
        (data_portal_of a) (pricing_loader_of a) m bl in
    perf = TradingAlgorithm_run algo ∧
    RunAlgorithm algo ∈ events_since st st' ∧
    BundlesLoad (bundle a) (bundle_timestamp a) ∈ events_since st st'.
Proof.
  intros E.
  destruct (_run_path a st) as (r & st'' & E' & Hp).
  rewrite E in E'. injection E' as <- <-.
  destruct (run_path_steps a st _ st' Hp)
    as (s1 & rn & s2 & E1 & E2 & [[H1 _] _] & [H2 _] & [[H3 _] _]
        & ns & text & m & bl & -> & Hm & Hbl & Hperf & Hrun & Hbundle).
  exists ns, text, m, bl.
  split; [rewrite E1; cbn; rewrite E2; reflexivity|].
  split; [exact (build_namespace_text a s1 ns text s2 E2)|].
  split; [exact Hm|]. split; [exact Hbl|].
  cbn zeta in *. split; [exact Hperf|].
  assert (H12 : extends (run_event a) st s2)
    by (eapply extends_trans; eassumption).
  split; eapply elem_of_events_since_later; eassumption.
Qed.


End RunBehaviour.

(** ** [run_algorithm] from end to end *)

Section RunAlgorithm.
Context `{Collaborators}.

Lemma run_algorithm_cases (r : AlgorithmArgs) (st : state) :
  let loaded := load_extensions (ra_default_extension r) (ra_extensions r)
                  (ra_strict_extensions r) (ra_environ r) false st in
  run_algorithm r st =
  match loaded.1 with
  | Ok _ => _run (run_args_of r) loaded.2
  | Raise e => (Raise e, loaded.2)
  end.
Proof.
  cbn zeta. unfold run_algorithm, bind.
  destruct (load_extensions _ _ _ _ _ st) as [[[]|e] st1]; reflexivity.
Qed.

(** X13.  A completed [run_algorithm] has loaded the extensions first and
    resolved the metrics set and the blotter in the registries as the
    extensions left them; the simulation was given the callables, an empty
    namespace and no script. *)
Theorem run_algorithm_assembly (r : AlgorithmArgs) (st st' : state)
    (perf : Perf) :
  run_algorithm r st = (Ok perf, st') →
  let a := run_args_of r in
  let st1 := (load_extensions (ra_default_extension r) (ra_extensions r)
                (ra_strict_extensions r) (ra_environ r) false st).2 in
  ∃ m bl,
    resolved "metrics set" (metrics_registry (world st1)) (ra_metrics_set r)
      = Ok m ∧
    resolved "blotter" (blotter_registry (world st1)) (ra_blotter r) = Ok bl ∧
    let algo :=
      new_algorithm a (benchmark_of a) ∅ None (calendar_of a)
        (data_portal_of a) (pricing_loader_of a) m bl in
    perf = TradingAlgorithm_run algo ∧
    RunAlgorithm algo ∈ events_since st1 st' ∧
    ta_strategy algo =
      Callables (ra_initialize r) (ra_handle_data r)
        (ra_before_trading_start r) (ra_analyze r).
Proof.
  intros E a st1. rewrite run_algorithm_cases in E. cbn zeta in E.
  fold st1 in E.
  destruct (load_extensions _ _ _ _ _ st).1 as [[]|e]; [|discriminate].
  destruct (_run_completed a st1 st' perf E)
    as (ns & text & m & bl & Hns & _ & Hm & Hbl & Hperf & Hrun & _).
  assert (Hempty : (build_namespace a (load_benchmark a st1).2).1
                   = Ok (∅, None)) by reflexivity.
  rewrite Hempty in Hns. injection Hns as <- <-.
  exists m, bl. split; [exact Hm|]. split; [exact Hbl|].
  cbn zeta in *. split; [exact Hperf|]. split; [exact Hrun | reflexivity].
Qed.

(** X14.  When loading the extensions raises, [run_algorithm] raises the
    same exception and the run is not started: no market data is read, no
    bundle is opened, nothing is evaluated and no simulation is run. *)
Theorem extension_failure_aborts_run (r : AlgorithmArgs) (st : state)
    (e : exn) :
  let loaded := load_extensions (ra_default_extension r) (ra_extensions r)
                  (ra_strict_extensions r) (ra_environ r) false st in
  loaded.1 = Raise e →
  run_algorithm r st = (Raise e, loaded.2) ∧
  Forall (λ ev, reads_market_data ev = false ∧ opens_bundle ev = false ∧
                is_eval ev = false ∧ runs_simulation ev = false)
    (events_since st (run_algorithm r st).2).
Proof.
  intros loaded Hraise.
  assert (Hrun : run_algorithm r st = (Raise e, loaded.2)).
  { rewrite run_algorithm_cases. cbn zeta. fold loaded. rewrite Hraise.
    reflexivity. }
  split; [exact Hrun|]. rewrite Hrun. cbn.
  destruct (load_extensions_events (ra_default_extension r)
              (ra_extensions r) (ra_strict_extensions r) (ra_environ r)
              false st) as (new & Hloads & Hev).
  pose proof (loads_events _ _ _ _ _ _ _ Hloads) as Hnew.
  fold loaded in Hev. rewrite Hev. apply Forall_app. split.
  - destruct (ra_default_extension r); repeat constructor.
  - eapply Forall_impl; [exact Hnew|].
    intros ev [[x Hx]|[msg ->]]; [|repeat split].
    destruct ev; cbn in Hx; try discriminate; repeat split.
Qed.

End RunAlgorithm.

(** ** Warnings *)

Section MoreBehaviour.
Context `{Collaborators}.

Lemma load_event_flags (ext : string) (r : option exn) :
  is_warning (load_event ext r) = false ∧
  is_failed_load (load_event ext r) = (if r is Some _ then true else false) ∧
  is_caught_failure (load_event ext r)
    = (if r is Some e then is_Exception e else false).
Proof.
  unfold is_failed_load, is_caught_failure. rewrite load_result_load_event.
  unfold load_event. destruct (endswith ext ".py"), r; repeat split.
Qed.

Lemma loads_warnings strict reload exts st r st' new :
  loads strict reload exts st r st' new →
  if strict
  then count is_warning new = 0 ∧ count is_failed_load new ≤ 1 ∧
       (r = Ok tt → count is_failed_load new = 0)
  else count is_warning new = count is_caught_failure new ∧
       (r = Ok tt → count is_failed_load new = count is_caught_failure new).
Proof.
  induction 1 as [st | ext rest st r st' new Hs _ IH | ext rest st w e Hs Es Eo
                 | ext rest st w e r st' new Hs Es Ex Eo _ IH
                 | ext rest st w r st' new Hs Eo _ IH].
  - destruct strict; cbn; auto.
  - exact IH.
  - cbn. destruct (load_event_flags ext (Some e)) as (-> & -> & ->).
    destruct strict; cbn.
    + split; [reflexivity|]. split; [lia | discriminate].
    + destruct Es as [Es|Es]; [discriminate|]. rewrite Es.
      split; [reflexivity | discriminate].
  - subst strict. cbn.
    destruct (load_event_flags ext (Some e)) as (-> & -> & ->).
    rewrite Ex. cbn. destruct IH as [-> IH].
    split; [reflexivity|]. intros Hr. rewrite (IH Hr). reflexivity.
  - cbn. destruct (load_event_flags ext None) as (-> & -> & ->). cbn. exact IH.
Qed.

(** X15.  Under [strict] no warning is recorded and at most one load
    fails, none when the call returns.  Without [strict] there is one
    warning for each failed load whose exception is an [Exception], and
    when the call returns every failed load was of that kind. *)
Theorem warnings_match_failures default exts strict environ reload st :
  let r := (load_extensions default exts strict environ reload st).1 in
  let new :=
    events_since st (load_extensions default exts strict environ reload st).2 in
  if strict
  then count is_warning new = 0 ∧ count is_failed_load new ≤ 1 ∧
       (r = Ok tt → count is_failed_load new = 0)
  else count is_warning new = count is_caught_failure new ∧
       (r = Ok tt → count is_failed_load new = count is_caught_failure new).
Proof.
  cbn zeta.
  destruct (load_extensions_events default exts strict environ reload st)
    as (new & Hloads & ->).
  pose proof (loads_warnings _ _ _ _ _ _ _ Hloads) as Hw.
  assert (Hpre : ∀ p, (∀ path, p (EnsureFile path) = false) →
            count p ((if default then [EnsureFile (default_extension environ)]
                      else []) ++ new) = count p new).
  { intros p Hp. rewrite count_app. destruct default; cbn; rewrite ?Hp; lia. }
  rewrite !Hpre by reflexivity. exact Hw.
Qed.

End MoreBehaviour.

(** ** The properties on the test double *)

Import TestDouble.





(** C3 as worded fails: with no benchmark returns given, the market data
    is read before the dates are validated. *)
Lemma market_data_read_before_validation :
  ¬ validates_before_any_data
      (run_args None [] 5 1 "-" None (inl "none") (inl "default")) st0.
Proof.
  intros Hc. destruct Hc as [_ Hf]; [vm_compute; reflexivity|].
  assert (Hev : events_since st0
            (_run (run_args None [] 5 1 "-" None (inl "none") (inl "default"))
               st0).2 = [LoadMarketData tt]) by reflexivity.
  rewrite Hev in Hf. inversion Hf as [|ev l Hd _]. discriminate Hd.
Qed.

Lemma empty_range_fails_before_bundle_witness :
  let a := run_args None [] 5 1 "-" None (inl "none") (inl "default") in
  (session_distance (calendar_of a) (start a) (end_ a) < 1)%Z ∧
  ∃ e st',
    _run a st0 = (Raise e, st') ∧
    match (build_namespace a (load_benchmark a st0).2).1 with
    | Ok _ => e = no_trading_days (start a) (end_ a)
    | Raise e' => e = e'
    end ∧
    Forall (λ ev, opens_bundle ev = false ∧ runs_simulation ev = false)
      (events_since st0 st') ∧
    (benchmark_returns a = None →
     LoadMarketData (environ a) ∈ events_since st0 st').
Proof.
  intros a.
  assert (Hd : (session_distance (calendar_of a) (start a) (end_ a) < 1)%Z)
    by (vm_compute; reflexivity).
  split; [exact Hd|]. exact (empty_range_fails_before_bundle a st0 Hd).
Defined.

(** C5 as worded fails: the expression [exit(3)] raises [SystemExit],
    which [except Exception] does not catch; it leaves the builder as it
    is, not wrapped in the error that names the definition. *)
Lemma system_exit_not_wrapped :
  ¬ failure_is_wrapped false "x" "exit(3)" ∅ st0.
Proof.
  intros Hc. specialize (Hc ∅ system_exit eq_refl).
  vm_compute in Hc. discriminate Hc.
Qed.

Lemma definitions_bind_in_order_witness :
  let ns_pre : gmap string Z := <["x" := 1%Z]> ∅ in
  let st_pre := State ∅ ∅ 0 [Eval "1" (Ok 1%Z)] in
  count_char "=" "y" = 0 ∧ count_char "=" "x" = 0 ∧
  define_loop false ["x=1"] ∅ st0 = (Ok ns_pre, st_pre) ∧
  ∃ st',
    trace st' = trace st_pre ++ [Eval "x" (Ok 1%Z)] ∧
    define_loop false ["x=1"; "y=x"] ∅ st0
      = (Ok (<["y" := 1%Z]> ns_pre), st') ∧
    (<["y" := 1%Z]> ns_pre) !! "y" = Some 1%Z.
Proof.
  intros ns_pre st_pre.
  assert (Hpre : define_loop false ["x=1"] ∅ st0 = (Ok ns_pre, st_pre))
    by reflexivity.
  split; [reflexivity|]. split; [reflexivity|]. split; [exact Hpre|].
  destruct (definitions_bind_in_order (H := types) false ["x=1"] [] "y" "x" ∅ ns_pre st0
              st_pre eq_refl eq_refl Hpre) as (st' & Ht & Hloop & Hlook & _).
  exists st'. split; [exact Ht|]. split; [exact Hloop | exact Hlook].
Defined.

Lemma defines_without_algotext_witness :
  let a := run_args None ["x=1"] 1 5 "-" None (inl "none") (inl "default") in
  algotext a = None ∧ defines a ≠ [] ∧
  ∃ st',
    _run a st0 = (Raise conflict_error, st') ∧
    Forall (λ ev, is_eval ev = false) (events_since st0 st') ∧
    user_ns st' = user_ns st0.
Proof.
  intros a.
  assert (Hd : defines a ≠ []) by (vm_compute; discriminate).
  split; [reflexivity|]. split; [exact Hd|].
  exact (defines_without_algotext a st0 eq_refl Hd).
Defined.



Lemma choose_loader_dispatch_witness :
  "close" ∈ USEquityPricing_columns ∧ ("vwap" ∉ USEquityPricing_columns) ∧
  choose_loader tt "close" = Ok tt ∧
  choose_loader tt "vwap" =
    Raise (ValueError "No PipelineLoader registered for column vwap.").
Proof.
  assert (Hin : "close" ∈ USEquityPricing_columns)
    by (apply (bool_decide_unpack _); vm_compute; exact I).
  assert (Hnot : "vwap" ∉ USEquityPricing_columns)
    by (apply (bool_decide_unpack _); vm_compute; exact I).
  destruct (choose_loader_dispatch (H := types) tt "close") as (Hok & _ & _).
  destruct (choose_loader_dispatch (H := types) tt "vwap") as (_ & Hraise & _).
  split; [exact Hin|]. split; [exact Hnot|].
  split; [exact (Hok Hin) | exact (Hraise Hnot)].
Defined.

Lemma output_routing_witness :
  let a := run_args None [] 1 5 "-" None (inl "none") (inl "default") in
  _run a st0 = (Ok 5%Z, (_run a st0).2) ∧
  ∃ algo before out,
    5%Z = TradingAlgorithm_run algo ∧
    events_since st0 (_run a st0).2 = before ++ RunAlgorithm algo :: out ∧
    out = [Echo (Some "perf")].
Proof.
  intros a.
  assert (Hrun : _run a st0 = (Ok 5%Z, (_run a st0).2)) by reflexivity.
  split; [exact Hrun|].
  destruct (output_routing a st0 _ 5%Z Hrun)
    as (algo & before & out & Hperf & Hev & _ & Hdash & _).
  exists algo, before, out. split; [exact Hperf|]. split; [exact Hev|].
  exact (Hdash eq_refl).
Defined.

Lemma run_algorithm_discards_output_witness :
  let r := algorithm_args 1 5 ["good"] in
  (run_algorithm r st0).1 = Ok 5%Z ∧
  Forall (λ ev, prints ev = false ∧ persists ev = false)
    (events_since st0 (run_algorithm r st0).2) ∧
  ∃ algo, 5%Z = TradingAlgorithm_run algo ∧
          RunAlgorithm algo ∈ events_since st0 (run_algorithm r st0).2.
Proof.
  intros r.
  assert (Hrun : (run_algorithm r st0).1 = Ok 5%Z) by reflexivity.
  destruct (run_algorithm_discards_output r st0) as (_ & _ & Hquiet & Hperf).
  split; [exact Hrun|]. split; [exact Hquiet|]. exact (Hperf 5%Z Hrun).
Defined.

(** ** The further properties on the test double *)

Lemma second_call_loads_nothing_witness :
  let st1 := (load_extensions true ["good"] true tt false st0).2 in
  Forall (λ ev, is_failed_load ev = false) (events_since st0 st1) ∧
  load_extensions true ["good"] true tt false st1 = (Ok tt, ensured true tt st1) ∧
  events_since st1 (ensured true tt st1) = [EnsureFile "extension.py"].
Proof.
  intros st1.
  assert (Hclean : Forall (λ ev, is_failed_load ev = false)
                     (events_since st0 st1))
    by (vm_compute; repeat constructor).
  destruct (second_call_loads_nothing (H := types) true ["good"] true tt st0
              Hclean) as (Hcall & Hev & _).
  split; [exact Hclean|]. split; [exact Hcall | exact Hev].
Defined.

Lemma malformed_define_rejected_in_turn_witness :
  let ns_pre : gmap string Z := <["x" := 1%Z]> ∅ in
  let st_pre := State ∅ ∅ 0 [Eval "1" (Ok 1%Z)] in
  define_loop false ["x=1"] ∅ st0 = (Ok ns_pre, st_pre) ∧
  count_char "=" "y" ≠ 1 ∧
  define_loop false ["x=1"; "y"; "z=2"] ∅ st0
    = (Raise (invalid_define "y"), st_pre).
Proof.
  intros ns_pre st_pre.
  assert (Hpre : define_loop false ["x=1"] ∅ st0 = (Ok ns_pre, st_pre))
    by reflexivity.
  assert (Hbad : count_char "=" "y" ≠ 1) by (vm_compute; discriminate).
  destruct (malformed_define_rejected_in_turn (H := types) false ["x=1"]
              ["z=2"] "y" ∅ ns_pre st0 st_pre Hpre Hbad) as [Hloop _].
  split; [exact Hpre|]. split; [exact Hbad | exact Hloop].
Defined.

Lemma interactive_namespace_is_shared_witness :
  let a := TestInputs.interactive_args ["x=1"; "y=x"] in
  let st := State ∅ (<["n" := 7%Z]> ∅) 0 [] in
  algotext a ≠ None ∧ local_namespace a = true ∧
  _run a st = (Ok 5%Z, (_run a st).2) ∧
  ∃ algo,
    5%Z = TradingAlgorithm_run algo ∧
    ta_namespace algo = user_ns (_run a st).2 ∧
    user_ns (_run a st).2 !! "y" = Some 1%Z ∧
    user_ns (_run a st).2 !! "n" = Some 7%Z.
Proof.
  intros a st.
  assert (Ht : algotext a ≠ None) by discriminate.
  assert (Hrun : _run a st = (Ok 5%Z, (_run a st).2)) by reflexivity.
  destruct (interactive_namespace_is_shared a st _ 5%Z Ht eq_refl Hrun)
    as (algo & Hperf & _ & Hns).
  split; [exact Ht|]. split; [reflexivity|]. split; [exact Hrun|].
  exists algo. split; [exact Hperf|]. split; [exact Hns|].
  split; reflexivity.
Defined.


Lemma run_algorithm_assembly_witness :
  let r := algorithm_args 1 5 ["good"] in
  run_algorithm r st0 = (Ok 5%Z, (run_algorithm r st0).2) ∧
  ∃ m bl,
    resolved "metrics set"
      (metrics_registry
         (world (load_extensions true ["good"] true tt false st0).2))
      (inl "none") = Ok m ∧
    5%Z = TradingAlgorithm_run
            (new_algorithm (run_args_of r) (benchmark_of (run_args_of r)) ∅
               None (calendar_of (run_args_of r))
               (data_portal_of (run_args_of r))
               (pricing_loader_of (run_args_of r)) m bl).
Proof.
  intros r.
  assert (Hrun : run_algorithm r st0 = (Ok 5%Z, (run_algorithm r st0).2))
    by reflexivity.
  destruct (run_algorithm_assembly r st0 _ 5%Z Hrun)
    as (m & bl & Hm & _ & Hperf & _).
  split; [exact Hrun|]. exists m, bl. split; [exact Hm | exact Hperf].
Defined.

Lemma extension_failure_aborts_run_witness :
  let r := algorithm_args 1 5 ["bad.py"; "good"] in
  (load_extensions true ["bad.py"; "good"] true tt false st0).1 = Raise boom ∧
  run_algorithm r st0 =
    (Raise boom, (load_extensions true ["bad.py"; "good"] true tt false st0).2) ∧
  Forall (λ ev, reads_market_data ev = false ∧ opens_bundle ev = false ∧
                is_eval ev = false ∧ runs_simulation ev = false)
    (events_since st0 (run_algorithm r st0).2).
Proof.
  intros r.
  assert (Hraise :
    (load_extensions true ["bad.py"; "good"] true tt false st0).1 = Raise boom)
    by reflexivity.
  destruct (extension_failure_aborts_run r st0 boom Hraise) as [Hrun Hquiet].
  split; [exact Hraise|]. split; [exact Hrun | exact Hquiet].
Defined.

Lemma reload_loads_every_identifier_witness :
  let r := (load_extensions true ["flaky.py"; "bad.py"; "good"] false tt true
              st_loaded).1 in
  let events :=
    events_since st_loaded
      (load_extensions true ["flaky.py"; "bad.py"; "good"] false tt true
         st_loaded).2 in
  r = Ok tt ∧
  "flaky.py" ∈ _loaded_extensions st_loaded ∧
  attempted events = ["extension.py"; "flaky.py"; "bad.py"; "good"].
Proof.
  intros r events.
  assert (Hr : r = Ok tt) by reflexivity.
  assert (Hin : "flaky.py" ∈ _loaded_extensions st_loaded)
    by (apply (bool_decide_unpack _); vm_compute; exact I).
  destruct (reload_loads_every_identifier (H := types) true
              ["flaky.py"; "bad.py"; "good"] false tt st_loaded) as [_ Hall].
  split; [exact Hr|]. split; [exact Hin|]. exact (Hall Hr).
Defined.

Lemma simulation_runs_once_witness :
  let a := run_args None [] 1 5 "out.pickle" None (inl "none") (inl "default") in
  (_run a st0).1 = Ok 5%Z ∧
  count runs_simulation (events_since st0 (_run a st0).2) = 1 ∧
  count persists (events_since st0 (_run a st0).2) ≤ 1.
Proof.
  intros a.
  assert (Hrun : (_run a st0).1 = Ok 5%Z) by reflexivity.
  destruct (simulation_runs_once a st0) as (_ & Hp & Hone).
  split; [exact Hrun|]. split; [exact (Hone 5%Z Hrun)|].
  rewrite <- (Hone 5%Z Hrun). exact Hp.
Defined.

Lemma warnings_match_failures_witness :
  let r := (load_extensions false ["bad.py"; "good"; "bad.py"] false tt false
              st0).1 in
  let new :=
    events_since st0
      (load_extensions false ["bad.py"; "good"; "bad.py"] false tt false
         st0).2 in
  r = Ok tt ∧
  count is_warning new = count is_caught_failure new ∧
  count is_failed_load new = count is_caught_failure new ∧
  count is_warning new = 2.
Proof.
  intros r new.
  assert (Hr : r = Ok tt) by reflexivity.
  pose proof (warnings_match_failures (H := types) false
                ["bad.py"; "good"; "bad.py"] false tt false st0) as [Hw Hf].
  split; [exact Hr|]. split; [exact Hw|]. split; [exact (Hf Hr)|].
  reflexivity.
Defined.
